(** * Reorg-aware peer request cache of the wallet sync client

    A shallow embedding of [chia/wallet/util/peer_request_cache.py]:
    the class [PeerRequestCache], its accessors, the truncation
    [clear_after_height] and the predicate [can_use_peer_request_cache].

    Python objects are mutable; every method is embedded as a function that
    takes the cache state and returns the new state (and the returned value,
    when the method returns one).  Heights and timestamps ([uint32],
    [uint64], [int]) are integers [Z]; no arithmetic is done on them, only
    comparisons, so no wrap-around occurs.  Byte strings are lists of
    bytes. *)

From Stdlib Require Import ZArith List.
From Stdlib.Strings Require Import Byte.
From stdpp Require Import base decidable option list.

Local Open Scope Z_scope.

Abbreviation bytes := (list Byte.byte).
Abbreviation bytes32 := (list Byte.byte).

#[global] Instance byte_eq_decision : EqDecision Byte.byte := Byte.byte_eq_dec.

(** ** The bounded cache *)

Module LRU.
Section lru.
Context {K V : Type} `{EqDecision K}.

(** Modelled from the spec: the bounded cache [LRUCache] of
    [chia.util.lru_cache], which is not part of the source tree.  The spec
    gives its interface ([new(capacity)], [get(key)], [put(key, value)],
    enumerable (key, value) pairs, read-only [capacity]) and its policy
    (fixed capacity, recency-based eviction).  The entries are kept as an
    association list with distinct keys, least recently used first, which
    is also the order in which the pairs are enumerated. *)
Record LRUCache : Type := mk {
  cache : list (K * V);
  capacity : Z
}.

(** Modelled from the spec: [new(capacity)] is an empty cache. *)
Definition new (cap : Z) : LRUCache := {| cache := []; capacity := cap |}.

(** The value stored under a key, if any. *)
Fixpoint alookup (k : K) (l : list (K * V)) : option V :=
  match l with
  | [] => None
  | (k', v) :: l' => if decide (k' = k) then Some v else alookup k l'
  end.

Definition remove_key (k : K) (l : list (K * V)) : list (K * V) :=
  filter (λ p, p.1 ≠ k) l.

(** Modelled from the spec: [get(key)] answers nothing for a key that is
    not cached; a hit makes the entry the most recently used one. *)
Definition get (k : K) (c : LRUCache) : option V * LRUCache :=
  match alookup k (cache c) with
  | None => (None, c)
  | Some v =>
      (Some v, {| cache := remove_key k (cache c) ++ [(k, v)];
                  capacity := capacity c |})
  end.

(** Modelled from the spec: [put(key, value)] makes the entry the most
    recently used one and, when the cache then holds more entries than its
    capacity, evicts the least recently used one. *)
Definition put (k : K) (v : V) (c : LRUCache) : LRUCache :=
  let l := remove_key k (cache c) ++ [(k, v)] in
  {| cache := if Z.of_nat (length l) >? capacity c then tail l else l;
     capacity := capacity c |}.

(** The rebuild loop of the truncation: a fresh cache of the same capacity
    receives, in enumeration order, the entries of the old one that pass
    the test. *)
Definition rebuild_step (keep : K → V → bool) (acc : LRUCache) (p : K * V)
  : LRUCache :=
  if keep p.1 p.2 then put p.1 p.2 acc else acc.

Definition rebuild (keep : K → V → bool) (old : LRUCache) : LRUCache :=
  fold_left (rebuild_step keep) (cache old) (new (capacity old)).

(** Two caches hold the same key-to-value mapping. *)
Definition same_contents (c1 c2 : LRUCache) : Prop :=
  ∀ k, alookup k (cache c1) = alookup k (cache c2).

(** The first cache holds exactly those entries of the second that
    satisfy [P], with the values they had. *)
Definition keeps_exactly (P : K → V → Prop) (c' c : LRUCache) : Prop :=
  ∀ k v, alookup k (cache c') = Some v ↔ alookup k (cache c) = Some v ∧ P k v.

(** The representation invariant: distinct keys (the entries are those of
    a dictionary) and no more entries than the capacity. *)
Definition wf (c : LRUCache) : Prop :=
  NoDup (cache c).*1 ∧ Z.of_nat (length (cache c)) ≤ capacity c.

End lru.
Arguments LRUCache : clear implicits.
End LRU.

Import LRU.

(** ** The records read by the cache *)

(** Modelled from the spec: the coin-state record of
    [chia.protocols.wallet_protocol] (a coin with an optional spent height
    and an optional created height); the declaration is not part of the
    source tree. *)
Record Coin : Type := {
  parent_coin_info : bytes32;
  puzzle_hash : bytes32;
  amount : Z
}.

Record CoinState : Type := {
  coin : Coin;
  spent_height : option Z;
  created_height : option Z
}.

(** Modelled from the spec: the header-block record of
    [chia.types.header_block], restricted to what the cache reads of it:
    the attributes [height], [is_transaction_block] and
    [foliage_transaction_block] (optional, with its [timestamp]), and the
    three fields that enter the signature fingerprint, kept as the byte
    strings that [bytes(...)] yields for them.  The declaration is not part
    of the source tree. *)
Record ProofOfSpace : Type := {
  plot_public_key : bytes
}.

Record RewardChainBlock : Type := {
  proof_of_space : ProofOfSpace
}.

Record Foliage : Type := {
  foliage_block_data : bytes;
  foliage_block_data_signature : bytes
}.

Record FoliageTransactionBlock : Type := {
  timestamp : Z
}.

Record HeaderBlock : Type := {
  height : Z;
  is_transaction_block : bool;
  reward_chain_block : RewardChainBlock;
  foliage : Foliage;
  foliage_transaction_block : option FoliageTransactionBlock
}.

(** The collaborators that the cache uses only through their interface: the
    handle of a block-range request, the sub-epoch-summary response, the
    hash primitive and the hash of a coin state. *)
Class Collaborators : Type := {
  Task : Type;
  RespondSESInfo : Type;
  std_hash : bytes → bytes32;
  get_hash : CoinState → bytes32
}.

(** What a method call yields: the value it returns, or the failure of an
    [assert]. *)
Inductive outcome (A : Type) : Type :=
| Returned (a : A)
| AssertionError.
Arguments Returned {A} a.
Arguments AssertionError {A}.

(** ** The cache object *)

Section peer_request_cache.
Context `{Collaborators}.

Record PeerRequestCache : Type := {
  _blocks : LRUCache Z HeaderBlock;
  _block_requests : LRUCache (Z * Z) Task;
  _ses_requests : LRUCache Z RespondSESInfo;
  (* coin state hash -> last change height, or None for reorg *)
  _states_validated : LRUCache bytes32 (option Z);
  _timestamps : LRUCache Z Z;
  _blocks_validated : LRUCache bytes32 Z;
  _block_signatures_validated : LRUCache bytes32 Z
}.

(** Assignments to the fields of [self]. *)
Definition set_blocks x (self : PeerRequestCache) :=
  {| _blocks := x; _block_requests := _block_requests self;
     _ses_requests := _ses_requests self;
     _states_validated := _states_validated self;
     _timestamps := _timestamps self;
     _blocks_validated := _blocks_validated self;
     _block_signatures_validated := _block_signatures_validated self |}.
Definition set_block_requests x (self : PeerRequestCache) :=
  {| _blocks := _blocks self; _block_requests := x;
     _ses_requests := _ses_requests self;
     _states_validated := _states_validated self;
     _timestamps := _timestamps self;
     _blocks_validated := _blocks_validated self;
     _block_signatures_validated := _block_signatures_validated self |}.
Definition set_ses_requests x (self : PeerRequestCache) :=
  {| _blocks := _blocks self; _block_requests := _block_requests self;
     _ses_requests := x;
     _states_validated := _states_validated self;
     _timestamps := _timestamps self;
     _blocks_validated := _blocks_validated self;
     _block_signatures_validated := _block_signatures_validated self |}.
Definition set_states_validated x (self : PeerRequestCache) :=
  {| _blocks := _blocks self; _block_requests := _block_requests self;
     _ses_requests := _ses_requests self;
     _states_validated := x;
     _timestamps := _timestamps self;
     _blocks_validated := _blocks_validated self;
     _block_signatures_validated := _block_signatures_validated self |}.
Definition set_timestamps x (self : PeerRequestCache) :=
  {| _blocks := _blocks self; _block_requests := _block_requests self;
     _ses_requests := _ses_requests self;
     _states_validated := _states_validated self;
     _timestamps := x;
     _blocks_validated := _blocks_validated self;
     _block_signatures_validated := _block_signatures_validated self |}.
Definition set_blocks_validated x (self : PeerRequestCache) :=
  {| _blocks := _blocks self; _block_requests := _block_requests self;
     _ses_requests := _ses_requests self;
     _states_validated := _states_validated self;
     _timestamps := _timestamps self;
     _blocks_validated := x;
     _block_signatures_validated := _block_signatures_validated self |}.
Definition set_block_signatures_validated x (self : PeerRequestCache) :=
  {| _blocks := _blocks self; _block_requests := _block_requests self;
     _ses_requests := _ses_requests self;
     _states_validated := _states_validated self;
     _timestamps := _timestamps self;
     _blocks_validated := _blocks_validated self;
     _block_signatures_validated := x |}.

(** [__init__] *)
Definition init : PeerRequestCache :=
  {| _blocks := new 100;
     _block_requests := new 100;
     _ses_requests := new 100;
     _states_validated := new 1000;
     _timestamps := new 1000;
     _blocks_validated := new 1000;
     _block_signatures_validated := new 1000 |}.

Definition get_block (h : Z) (self : PeerRequestCache)
  : option HeaderBlock * PeerRequestCache :=
  let (r, c) := get h (_blocks self) in (r, set_blocks c self).

(** The block is stored first; the [assert] on the transaction block's
    foliage comes after it, so a failure leaves the stored block in
    place. *)
Definition add_to_blocks (header_block : HeaderBlock) (self : PeerRequestCache)
  : outcome unit * PeerRequestCache :=
  let self := set_blocks (put (height header_block) header_block (_blocks self)) self in
  if is_transaction_block header_block then
    match foliage_transaction_block header_block with
    | None => (AssertionError, self)
    | Some ftb =>
        let (r, c) := get (height header_block) (_timestamps self) in
        let self := set_timestamps c self in
        match r with
        | None =>
            (Returned (),
             set_timestamps
               (put (height header_block) (timestamp ftb) (_timestamps self)) self)
        | Some _ => (Returned (), self)
        end
    end
  else (Returned (), self).

Definition get_block_request (start end_ : Z) (self : PeerRequestCache)
  : option Task * PeerRequestCache :=
  let (r, c) := get (start, end_) (_block_requests self) in
  (r, set_block_requests c self).

Definition add_to_block_requests (start end_ : Z) (request : Task)
    (self : PeerRequestCache) : PeerRequestCache :=
  set_block_requests (put (start, end_) request (_block_requests self)) self.

Definition get_ses_request (h : Z) (self : PeerRequestCache)
  : option RespondSESInfo * PeerRequestCache :=
  let (r, c) := get h (_ses_requests self) in (r, set_ses_requests c self).

Definition add_to_ses_requests (h : Z) (ses : RespondSESInfo)
    (self : PeerRequestCache) : PeerRequestCache :=
  set_ses_requests (put h ses (_ses_requests self)) self.

(** [self._states_validated.get(coin_state_hash) is not None].  The stored
    value is itself an optional height, and Python's [get] answers [None]
    both for a key that is not cached and for a key cached with [None]:
    the test holds only for a key cached with a height. *)
Definition in_states_validated (coin_state_hash : bytes32)
    (self : PeerRequestCache) : bool * PeerRequestCache :=
  let (r, c) := get coin_state_hash (_states_validated self) in
  (match r with
   | Some (Some _) => true
   | Some None | None => false
   end, set_states_validated c self).

(** The height stored for a coin state:
    [cs_height = None; if spent_height is not None: ... elif
    created_height is not None: ...]. *)
Definition cs_height (coin_state : CoinState) : option Z :=
  match spent_height coin_state with
  | Some h => Some h
  | None =>
      match created_height coin_state with
      | Some h => Some h
      | None => None
      end
  end.

Definition add_to_states_validated (coin_state : CoinState)
    (self : PeerRequestCache) : PeerRequestCache :=
  set_states_validated
    (put (get_hash coin_state) (cs_height coin_state) (_states_validated self))
    self.

Definition get_height_timestamp (h : Z) (self : PeerRequestCache)
  : option Z * PeerRequestCache :=
  let (r, c) := get h (_timestamps self) in (r, set_timestamps c self).

Definition add_to_blocks_validated (reward_chain_hash : bytes32) (h : Z)
    (self : PeerRequestCache) : PeerRequestCache :=
  set_blocks_validated (put reward_chain_hash h (_blocks_validated self)) self.

Definition in_blocks_validated (reward_chain_hash : bytes32)
    (self : PeerRequestCache) : bool * PeerRequestCache :=
  let (r, c) := get reward_chain_hash (_blocks_validated self) in
  (match r with Some _ => true | None => false end,
   set_blocks_validated c self).

Definition _calculate_sig_hash_from_block (block : HeaderBlock) : bytes32 :=
  std_hash
    (plot_public_key (proof_of_space (reward_chain_block block))
     ++ foliage_block_data (foliage block)
     ++ foliage_block_data_signature (foliage block)).

Definition add_to_block_signatures_validated (block : HeaderBlock)
    (self : PeerRequestCache) : PeerRequestCache :=
  let sig_hash := _calculate_sig_hash_from_block block in
  set_block_signatures_validated
    (put sig_hash (height block) (_block_signatures_validated self)) self.

Definition in_block_signatures_validated (block : HeaderBlock)
    (self : PeerRequestCache) : bool * PeerRequestCache :=
  let sig_hash := _calculate_sig_hash_from_block block in
  let (r, c) := get sig_hash (_block_signatures_validated self) in
  (match r with Some _ => true | None => false end,
   set_block_signatures_validated c self).

(** The seven rebuild loops, in the order of the source. *)
Definition clear_after_height (h : Z) (self : PeerRequestCache)
  : PeerRequestCache :=
  let self := set_blocks (rebuild (λ k _, k <=? h) (_blocks self)) self in
  let self :=
    set_block_requests
      (rebuild (λ k _, (k.1 <=? h) && (k.2 <=? h)) (_block_requests self))
      self in
  let self :=
    set_ses_requests (rebuild (λ k _, k <=? h) (_ses_requests self)) self in
  let self :=
    set_states_validated
      (rebuild (λ _ cs_height,
                  match cs_height with
                  | Some x => x <=? h
                  | None => false
                  end) (_states_validated self)) self in
  let self :=
    set_timestamps (rebuild (λ k _, k <=? h) (_timestamps self)) self in
  let self :=
    set_blocks_validated
      (rebuild (λ _ x, x <=? h) (_blocks_validated self)) self in
  set_block_signatures_validated
    (rebuild (λ _ x, x <=? h) (_block_signatures_validated self)) self.

(** [x is None], and [x is not None and x > y]. *)
Definition is_None {A : Type} (x : option A) : bool :=
  match x with None => true | Some _ => false end.

Definition exceeds (x : option Z) (y : Z) : bool :=
  match x with Some x => x >? y | None => false end.

(** The predicate; [fork_height] is optional.  It consults the cache
    through [in_states_validated], so it also hands back the cache. *)
Definition can_use_peer_request_cache (coin_state : CoinState)
    (peer_request_cache : PeerRequestCache) (fork_height : option Z)
  : bool * PeerRequestCache :=
  let (validated, peer_request_cache) :=
    in_states_validated (get_hash coin_state) peer_request_cache in
  (if negb validated then false
   else
     match fork_height with
     | None => true
     | Some fork_height =>
         if is_None (created_height coin_state)
            && is_None (spent_height coin_state)
         then false
         else if exceeds (created_height coin_state) fork_height then false
         else if exceeds (spent_height coin_state) fork_height then false
         else true
     end,
   peer_request_cache).

(** ** Histories of a cache object *)

Inductive call : Type :=
| GetBlock (h : Z)
| AddToBlocks (b : HeaderBlock)
| GetBlockRequest (start end_ : Z)
| AddToBlockRequests (start end_ : Z) (request : Task)
| GetSesRequest (h : Z)
| AddToSesRequests (h : Z) (ses : RespondSESInfo)
| InStatesValidated (coin_state_hash : bytes32)
| AddToStatesValidated (coin_state : CoinState)
| GetHeightTimestamp (h : Z)
| AddToBlocksValidated (reward_chain_hash : bytes32) (h : Z)
| InBlocksValidated (reward_chain_hash : bytes32)
| AddToBlockSignaturesValidated (b : HeaderBlock)
| InBlockSignaturesValidated (b : HeaderBlock)
| ClearAfterHeight (h : Z)
| CanUsePeerRequestCache (coin_state : CoinState) (fork_height : option Z).

(** The state a call leaves behind (also when it fails an [assert]). *)
Definition exec (o : call) (self : PeerRequestCache) : PeerRequestCache :=
  match o with
  | GetBlock h => (get_block h self).2
  | AddToBlocks b => (add_to_blocks b self).2
  | GetBlockRequest s e => (get_block_request s e self).2
  | AddToBlockRequests s e r => add_to_block_requests s e r self
  | GetSesRequest h => (get_ses_request h self).2
  | AddToSesRequests h ses => add_to_ses_requests h ses self
  | InStatesValidated x => (in_states_validated x self).2
  | AddToStatesValidated cs => add_to_states_validated cs self
  | GetHeightTimestamp h => (get_height_timestamp h self).2
  | AddToBlocksValidated x h => add_to_blocks_validated x h self
  | InBlocksValidated x => (in_blocks_validated x self).2
  | AddToBlockSignaturesValidated b => add_to_block_signatures_validated b self
  | InBlockSignaturesValidated b => (in_block_signatures_validated b self).2
  | ClearAfterHeight h => clear_after_height h self
  | CanUsePeerRequestCache cs f => (can_use_peer_request_cache cs self f).2
  end.

(** The states a cache object can be in: those that a sequence of calls
    produces from a newly constructed object. *)
Inductive reachable : PeerRequestCache → Prop :=
| reachable_init : reachable init
| reachable_exec o self : reachable self → reachable (exec o self).

Definition run (os : list call) (self : PeerRequestCache) : PeerRequestCache :=
  fold_left (λ s o, exec o s) os self.

(** The calls that ask the cache object something and store nothing. *)
Definition is_query (o : call) : bool :=
  match o with
  | GetBlock _ | GetBlockRequest _ _ | GetSesRequest _ | InStatesValidated _
  | GetHeightTimestamp _ | InBlocksValidated _ | InBlockSignaturesValidated _
  | CanUsePeerRequestCache _ _ => true
  | AddToBlocks _ | AddToBlockRequests _ _ _ | AddToSesRequests _ _
  | AddToStatesValidated _ | AddToBlocksValidated _ _
  | AddToBlockSignaturesValidated _ | ClearAfterHeight _ => false
  end.

(** ** What is observed of a cache object *)

(** The capacities of the seven caches, in the order of their
    declaration. *)
Definition capacities (self : PeerRequestCache) : list Z :=
  [ capacity (_blocks self); capacity (_block_requests self);
    capacity (_ses_requests self); capacity (_states_validated self);
    capacity (_timestamps self); capacity (_blocks_validated self);
    capacity (_block_signatures_validated self) ].

(** Two cache objects hold the same key-to-value mapping in each of the
    seven caches. *)
Definition same_mappings (c1 c2 : PeerRequestCache) : Prop :=
  same_contents (_blocks c1) (_blocks c2)
  ∧ same_contents (_block_requests c1) (_block_requests c2)
  ∧ same_contents (_ses_requests c1) (_ses_requests c2)
  ∧ same_contents (_states_validated c1) (_states_validated c2)
  ∧ same_contents (_timestamps c1) (_timestamps c2)
  ∧ same_contents (_blocks_validated c1) (_blocks_validated c2)
  ∧ same_contents (_block_signatures_validated c1) (_block_signatures_validated c2).

(** The invariant of a cache object: each cache is well formed and has the
    capacity it was constructed with. *)
Definition invariant (self : PeerRequestCache) : Prop :=
  wf (_blocks self) ∧ wf (_block_requests self) ∧ wf (_ses_requests self)
  ∧ wf (_states_validated self) ∧ wf (_timestamps self)
  ∧ wf (_blocks_validated self) ∧ wf (_block_signatures_validated self)
  ∧ capacities self = [100; 100; 100; 1000; 1000; 1000; 1000].


(** The heights a cache object holds: the keys of the caches keyed by
    height, both endpoints of every requested range, and the heights
    stored as values (a coin state stored without a height contributes
    none). *)
Definition cached_heights (self : PeerRequestCache) : list Z :=
  (cache (_blocks self)).*1
  ++ (cache (_block_requests self) ≫= λ p, [p.1.1; p.1.2])
  ++ (cache (_ses_requests self)).*1
  ++ omap snd (cache (_states_validated self))
  ++ (cache (_timestamps self)).*1
  ++ (cache (_blocks_validated self)).*2
  ++ (cache (_block_signatures_validated self)).*2.

(** Every entry of the validated states was stored for some coin state. *)
Definition stored_for_coin_states (self : PeerRequestCache) : Prop :=
  ∀ k v, (k, v) ∈ cache (_states_validated self) →
         ∃ cs, k = get_hash cs ∧ v = cs_height cs.

(** The decision sequence as the specification words it, its first step
    being whether the hash of the coin state is a key of the validated
    states. *)
Definition is_key (coin_state_hash : bytes32) (self : PeerRequestCache) : bool :=
  negb (is_None (alookup coin_state_hash (cache (_states_validated self)))).

Definition decision_sequence (present : bool) (created spent fork_height : option Z)
  : bool :=
  if negb present then false
  else match fork_height with
       | None => true
       | Some f =>
           match created, spent with
           | None, None => false
           | _, _ =>
               if exceeds created f then false
               else if exceeds spent f then false
               else true
           end
       end.

End peer_request_cache.

(** ** Sample data *)

Module Sample.

(** A stand-in for the collaborators: requests and responses carry no
    data, the hash primitive returns its input, and a coin state is
    identified by the parent of its coin. *)
Definition collaborators : Collaborators :=
  {| Task := unit;
     RespondSESInfo := unit;
     std_hash := λ b, b;
     get_hash := λ cs, parent_coin_info (coin cs) |}.

Definition PRC : Type := @PeerRequestCache collaborators.

Definition a_task : @Task collaborators := ().
Definition a_response : @RespondSESInfo collaborators := ().

Definition a_coin : Coin :=
  {| parent_coin_info := [x01; x02]; puzzle_hash := [x03]; amount := 7 |}.

Definition another_coin : Coin :=
  {| parent_coin_info := [x0a]; puzzle_hash := [x0b]; amount := 1 |}.

(** A coin state with neither a created nor a spent height. *)
Definition unconfirmed : CoinState :=
  {| coin := a_coin; spent_height := None; created_height := None |}.

(** A coin created at height 2 and spent at height 8. *)
Definition spent_at_8 : CoinState :=
  {| coin := another_coin; spent_height := Some 8; created_height := Some 2 |}.

Definition block (h : Z) (is_tx : bool) (ts : option Z) (sig : bytes)
  : HeaderBlock :=
  {| height := h;
     is_transaction_block := is_tx;
     reward_chain_block :=
       {| proof_of_space := {| plot_public_key := [x10; x11] |} |};
     foliage :=
       {| foliage_block_data := [x20];
          foliage_block_data_signature := sig |};
     foliage_transaction_block :=
       match ts with
       | Some t => Some {| timestamp := t |}
       | None => None
       end |}.

(** Two transaction blocks of height 5 with different timestamps, a block
    that is flagged as a transaction block but lacks its transaction
    foliage, and a block that is no transaction block. *)
Definition tx_block_first : HeaderBlock := block 5 true (Some 1000) [x30].
Definition tx_block_second : HeaderBlock := block 5 true (Some 2000) [x31].
Definition malformed_block : HeaderBlock := block 6 true None [x32].
Definition plain_block : HeaderBlock := block 7 false None [x33].

(** The block [tx_block_first] as it reappears at height 9. *)
Definition tx_block_moved : HeaderBlock := block 9 true (Some 1000) [x30].

(** A cache object after a short history. *)
Definition history : list (@call collaborators) :=
  [ AddToBlocks tx_block_first;
    AddToBlockRequests 3 8 a_task;
    AddToBlockRequests 5 15 a_task;
    AddToSesRequests 4 a_response;
    AddToStatesValidated spent_at_8;
    AddToBlocksValidated [x40] 12;
    AddToBlockSignaturesValidated plain_block ].

Definition populated : PRC := run history init.

(** A coin created at height 2 and not spent. *)
Definition created_at_2 : CoinState :=
  {| coin := a_coin; spent_height := None; created_height := Some 2 |}.

(** A cache object with two validated coin states. *)
Definition two_states : PRC :=
  add_to_states_validated created_at_2 (add_to_states_validated spent_at_8 init).

(** A cache object whose only entry is an unconfirmed coin state. *)
Definition with_unconfirmed : PRC := add_to_states_validated unconfirmed init.

End Sample.

(** * Facts about the bounded cache *)

Section lru_facts.
Context {K V : Type} `{EqDecision K}.
Implicit Types (k : K) (v : V) (l : list (K * V)) (c : LRUCache K V).
Implicit Types (keep : K → V → bool).

Lemma alookup_app k l1 l2 :
  alookup k (l1 ++ l2) =
  match alookup k l1 with Some v => Some v | None => alookup k l2 end.
Proof.
  induction l1 as [|[k' v'] l1 IH]; simpl; [done|].
  by destruct (decide (k' = k)).
Qed.

Lemma alookup_None k l : alookup k l = None ↔ k ∉ l.*1.
Proof.
  induction l as [|[k' v'] l IH]; simpl.
  - split; [intros _; apply not_elem_of_nil | done].
  - rewrite not_elem_of_cons. destruct (decide (k' = k)) as [->|Hne].
    + split; [done | intros [? _]; done].
    + rewrite IH. split; [intros ?; split; [congruence | done] | intros [_ ?]; done].
Qed.

Lemma alookup_Some_elem k v l : alookup k l = Some v → (k, v) ∈ l.
Proof.
  induction l as [|[k' v'] l IH]; simpl; [done|].
  destruct (decide (k' = k)) as [->|Hne].
  - intros [= ->]. apply list_elem_of_here.
  - intros Hl. apply list_elem_of_further. auto.
Qed.

Lemma alookup_remove_key k k' l :
  alookup k' (remove_key k l) = if decide (k = k') then None else alookup k' l.
Proof.
  unfold remove_key. induction l as [|[k0 v0] l IH]; simpl.
  - by destruct (decide (k = k')).
  - rewrite filter_cons. simpl. destruct (decide (k0 ≠ k)) as [Hk|Hk]; simpl.
    + rewrite IH. destruct (decide (k0 = k')) as [->|?]; [|done].
      by destruct (decide (k = k')); [congruence|].
    + apply dec_stable in Hk. subst k0. rewrite IH.
      by destruct (decide (k = k')).
Qed.

(** Moving an entry to the most recent position keeps the mapping. *)
Lemma alookup_refresh k v k' l :
  alookup k l = Some v →
  alookup k' (remove_key k l ++ [(k, v)]) = alookup k' l.
Proof.
  intros Hl. rewrite alookup_app, alookup_remove_key. simpl.
  destruct (decide (k = k')) as [->|?]; [done|].
  by destruct (alookup k' l).
Qed.

Lemma get_result k c : (get k c).1 = alookup k (cache c).
Proof. unfold get. by destruct (alookup k (cache c)). Qed.

Lemma get_capacity k c : capacity (get k c).2 = capacity c.
Proof. unfold get. by destruct (alookup k (cache c)). Qed.

Lemma get_same_contents k c : same_contents (get k c).2 c.
Proof.
  intros k'. unfold get. destruct (alookup k (cache c)) eqn:Hl; [|done].
  simpl. by apply alookup_refresh.
Qed.

Lemma put_capacity k v c : capacity (put k v c) = capacity c.
Proof. done. Qed.

Lemma remove_key_keys k l : k ∉ (remove_key k l).*1.
Proof.
  unfold remove_key. intros (p & -> & Hp)%list_elem_of_fmap.
  apply list_elem_of_filter in Hp as [Hp _]. done.
Qed.

Lemma remove_key_fresh k l : k ∉ l.*1 → remove_key k l = l.
Proof.
  unfold remove_key. induction l as [|[k' v'] l IH]; simpl; [done|].
  rewrite not_elem_of_cons. intros [Hne Hl].
  rewrite filter_cons_True by (simpl; congruence). by rewrite IH.
Qed.

Lemma remove_key_length k l : (length (remove_key k l) ≤ length l)%nat.
Proof. apply length_filter. Qed.

Lemma remove_key_NoDup k l : NoDup l.*1 → NoDup (remove_key k l).*1.
Proof.
  unfold remove_key. induction l as [|[k' v'] l IH]; simpl; [done|].
  intros [Hk Hl]%NoDup_cons. rewrite filter_cons. simpl.
  destruct (decide (k' ≠ k)); [|by auto].
  simpl. apply NoDup_cons. split; [|by auto].
  intros (p & Hp1 & Hp)%list_elem_of_fmap.
  apply list_elem_of_filter in Hp as [_ Hp]. apply Hk.
  apply list_elem_of_fmap. by exists p.
Qed.

Lemma refreshed_NoDup k v l :
  NoDup l.*1 → NoDup (remove_key k l ++ [(k, v)]).*1.
Proof.
  intros Hl. rewrite fmap_app. apply NoDup_app. split_and!.
  - by apply remove_key_NoDup.
  - intros k' Hk' ->%list_elem_of_singleton. by apply remove_key_keys in Hk'.
  - apply NoDup_singleton.
Qed.

Lemma tail_keys_NoDup l : NoDup l.*1 → NoDup (tail l).*1.
Proof. destruct l as [|p l]; simpl; [done|]. by intros [_ ?]%NoDup_cons. Qed.

Lemma wf_new cap : 0 ≤ cap → wf (@new K V cap).
Proof. intros ?. split; simpl; [apply NoDup_nil_2 | done]. Qed.

Lemma wf_get k c : wf c → wf (get k c).2.
Proof.
  intros [Hnd Hlen]. unfold get.
  destruct (alookup k (cache c)) as [v|] eqn:Hl; [|done].
  split; simpl.
  - by apply refreshed_NoDup.
  - apply alookup_Some_elem in Hl.
    assert (Hlt : (length (remove_key k (cache c)) < length (cache c))%nat).
    { unfold remove_key. apply (length_filter_lt _ _ (k, v)); [done|].
      simpl. intros Hne. by apply Hne. }
    rewrite length_app. simpl. lia.
Qed.

Lemma wf_put k v c : wf c → wf (put k v c).
Proof.
  intros [Hnd Hlen]. unfold put. split; simpl.
  - destruct (_ >? _); [apply tail_keys_NoDup|]; by apply refreshed_NoDup.
  - pose proof (remove_key_length k (cache c)) as Hr.
    assert (Hl' : (length (remove_key k (cache c) ++ [(k, v)])
                   ≤ S (length (cache c)))%nat).
    { rewrite length_app. simpl. lia. }
    destruct (Z.gtb_spec (Z.of_nat (length (remove_key k (cache c) ++ [(k, v)])))
                (capacity c)) as [Hgt|Hle]; [|done].
    destruct (remove_key k (cache c) ++ [(k, v)]); simpl in *; lia.
Qed.

(** A stored entry is found again, as soon as the cache can hold one. *)
Lemma alookup_put_eq k v c :
  1 ≤ capacity c → alookup k (cache (put k v c)) = Some v.
Proof.
  intros Hcap. unfold put. simpl.
  pose proof (remove_key_keys k (cache c)) as Hfresh.
  destruct (remove_key k (cache c)) as [|[k0 v0] r] eqn:Hr.
  - simpl. destruct (Z.gtb_spec (Z.of_nat 1) (capacity c)); [lia|].
    simpl. by rewrite decide_True.
  - assert (Hr' : alookup k (r ++ [(k, v)]) = Some v).
    { rewrite alookup_app.
      assert (alookup k r = None) as ->; [|simpl; by rewrite decide_True].
      apply alookup_None. intros ?. apply Hfresh. simpl. by apply list_elem_of_further. }
    destruct (_ >? _); simpl; [done|].
    rewrite decide_False; [done|].
    intros ->. apply Hfresh. simpl. apply list_elem_of_here.
Qed.

(** Storing into a cache that has room for the entry. *)
Lemma put_fresh k v c :
  k ∉ (cache c).*1 → Z.of_nat (length (cache c)) < capacity c →
  put k v c = {| cache := cache c ++ [(k, v)]; capacity := capacity c |}.
Proof.
  intros Hk Hlen. unfold put. rewrite remove_key_fresh by done.
  destruct (Z.gtb_spec (Z.of_nat (length (cache c ++ [(k, v)]))) (capacity c))
    as [Hgt|Hle]; [|done].
  rewrite length_app in Hgt. simpl in Hgt. lia.
Qed.

(** Storing under a key that is already cached replaces its value and
    never evicts. *)
Lemma alookup_put c k v k' :
  wf c → k ∈ (cache c).*1 ∨ Z.of_nat (length (cache c)) < capacity c →
  alookup k' (cache (put k v c)) =
  if decide (k = k') then Some v else alookup k' (cache c).
Proof.
  intros [Hnd Hlen] Hroom. unfold put. simpl.
  assert (Hfit : Z.of_nat (length (remove_key k (cache c) ++ [(k, v)])) ≤ capacity c).
  { rewrite length_app. simpl. destruct Hroom as [Hin|Hlt].
    - apply list_elem_of_fmap in Hin as ([k0 v0] & -> & Hin).
      assert ((length (remove_key k0 (cache c)) < length (cache c))%nat).
      { unfold remove_key. apply (length_filter_lt _ _ (k0, v0)); [done|].
        simpl. intros Hne. by apply Hne. }
      simpl in *. lia.
    - pose proof (remove_key_length k (cache c)). lia. }
  destruct (Z.gtb_spec (Z.of_nat (length (remove_key k (cache c) ++ [(k, v)])))
              (capacity c)); [lia|].
  rewrite alookup_app, alookup_remove_key. simpl.
  destruct (decide (k = k')) as [->|?]; [done|].
  by destruct (alookup k' (cache c)).
Qed.

Lemma get_inv k c r c' :
  get k c = (r, c') →
  r = alookup k (cache c) ∧ capacity c' = capacity c
  ∧ same_contents c' c ∧ (wf c → wf c').
Proof.
  intros E.
  pose proof (get_result k c) as H1. pose proof (get_capacity k c) as H2.
  pose proof (get_same_contents k c) as H3. pose proof (wf_get k c) as H4.
  rewrite E in *. simpl in *. by subst.
Qed.

(** *** The rebuild loop *)

Lemma rebuild_loop_capacity keep l (acc : LRUCache K V) :
  capacity (fold_left (rebuild_step keep) l acc) = capacity acc.
Proof.
  revert acc. induction l as [|[k v] l IH]; intros acc; simpl; [done|].
  rewrite IH. unfold rebuild_step. simpl. by destruct (keep k v).
Qed.

Lemma rebuild_capacity keep c : capacity (rebuild keep c) = capacity c.
Proof. unfold rebuild. by rewrite rebuild_loop_capacity. Qed.

Lemma rebuild_loop keep l a cap :
  NoDup (a ++ l).*1 →
  Z.of_nat (length a + length (filter (λ p, keep p.1 p.2) l)) ≤ cap →
  fold_left (rebuild_step keep) l {| cache := a; capacity := cap |}
  = {| cache := a ++ filter (λ p, keep p.1 p.2) l; capacity := cap |}.
Proof.
  revert a. induction l as [|[k v] l IH]; intros a Hnd Hlen; simpl.
  - by rewrite filter_nil, app_nil_r.
  - rewrite filter_cons in *. unfold rebuild_step at 2. simpl in *.
    destruct (keep k v) eqn:Hkeep; simpl in *.
    + rewrite put_fresh; simpl.
      * rewrite IH.
        -- by rewrite <- app_assoc.
        -- by rewrite <- app_assoc.
        -- rewrite length_app. simpl. lia.
      * rewrite fmap_app in Hnd. apply NoDup_app in Hnd as (_ & Hd & _).
        intros Hk. apply (Hd _ Hk). simpl. apply list_elem_of_here.
      * lia.
    + apply IH; [|done].
      rewrite fmap_app in *. simpl in Hnd.
      apply NoDup_app in Hnd as (Ha & Hd & [_ Hl]%NoDup_cons).
      apply NoDup_app. split_and!; [done| |done].
      intros x Hx Hx'. apply (Hd _ Hx). by apply list_elem_of_further.
Qed.

(** On a well-formed cache the loop neither evicts nor reorders: it keeps
    the entries that pass the test, as they were. *)
Lemma rebuild_filter keep c :
  wf c →
  rebuild keep c =
  {| cache := filter (λ p, keep p.1 p.2) (cache c); capacity := capacity c |}.
Proof.
  intros [Hnd Hlen]. unfold rebuild, new. rewrite rebuild_loop; [done|done|].
  simpl. pose proof (length_filter (λ p : K * V, keep p.1 p.2) (cache c)). lia.
Qed.

Lemma filter_keys_NoDup (P : K * V → Prop) `{∀ p, Decision (P p)} l :
  NoDup l.*1 → NoDup (filter P l).*1.
Proof.
  induction l as [|p l IH]; simpl; [done|].
  intros [Hp Hl]%NoDup_cons. rewrite filter_cons.
  destruct (decide (P p)); [|by auto].
  simpl. apply NoDup_cons. split; [|by auto].
  intros (q & Hq1 & Hq)%list_elem_of_fmap.
  apply list_elem_of_filter in Hq as [_ Hq]. apply Hp.
  apply list_elem_of_fmap. by exists q.
Qed.

Lemma wf_rebuild keep c : wf c → wf (rebuild keep c).
Proof.
  intros Hwf. rewrite rebuild_filter by done. destruct Hwf as [Hnd Hlen].
  split; simpl.
  - by apply filter_keys_NoDup.
  - pose proof (length_filter (λ p : K * V, keep p.1 p.2) (cache c)). lia.
Qed.

Lemma filter_twice (P : K * V → Prop) `{∀ p, Decision (P p)} l :
  filter P (filter P l) = filter P l.
Proof.
  induction l as [|p l IH]; [done|].
  rewrite filter_cons. destruct (decide (P p)); [|done].
  by rewrite filter_cons_True, IH.
Qed.

Lemma rebuild_twice keep c :
  wf c → rebuild keep (rebuild keep c) = rebuild keep c.
Proof.
  intros Hwf. rewrite (rebuild_filter keep (rebuild keep c)) by by apply wf_rebuild.
  rewrite rebuild_filter by done. simpl. by rewrite filter_twice.
Qed.

(** The mapping of the kept entries. *)
Lemma alookup_filter (P : K * V → Prop) `{∀ p, Decision (P p)} k l :
  NoDup l.*1 →
  alookup k (filter P l) =
  match alookup k l with
  | Some v => if decide (P (k, v)) then Some v else None
  | None => None
  end.
Proof.
  induction l as [|[k0 v0] l IH]; simpl; [done|].
  intros [Hk0 Hl]%NoDup_cons. rewrite filter_cons.
  destruct (decide (k0 = k)) as [->|Hne].
  - destruct (decide (P (k, v0))); simpl.
    + by rewrite decide_True.
    + rewrite IH by done. apply alookup_None in Hk0. by rewrite Hk0.
  - destruct (decide (P (k0, v0))); simpl; [rewrite decide_False by done|]; auto.
Qed.

Lemma alookup_rebuild keep c k :
  wf c →
  alookup k (cache (rebuild keep c)) =
  match alookup k (cache c) with
  | Some v => if keep k v then Some v else None
  | None => None
  end.
Proof.
  intros Hwf. rewrite rebuild_filter by done. destruct Hwf as [Hnd _]. simpl.
  rewrite alookup_filter by done. destruct (alookup k (cache c)) as [v|]; [|done].
  simpl. destruct (keep k v); case_decide; simpl in *; done.
Qed.

Lemma keeps_exactly_rebuild keep (P : K → V → Prop) c :
  wf c → (∀ k v, keep k v = true ↔ P k v) →
  keeps_exactly P (rebuild keep c) c.
Proof.
  intros Hwf HP k v. rewrite alookup_rebuild by done.
  destruct (alookup k (cache c)) as [v0|]; [|by split; [|intros [? _]]].
  destruct (keep k v0) eqn:Hkeep.
  - split; [intros [= ->]; split; [done | by apply HP] | by intros [? _]].
  - split; [done|]. intros [[= ->] HPv%HP]. congruence.
Qed.

Lemma rebuild_none keep c :
  wf c → (∀ k v, (k, v) ∈ cache c → keep k v = false) →
  cache (rebuild keep c) = [].
Proof.
  intros Hwf Hall. rewrite rebuild_filter by done. simpl.
  induction (cache c) as [|[k v] l IH]; [done|].
  rewrite filter_cons_False.
  - apply IH. intros k' v' Hin. apply Hall. by apply list_elem_of_further.
  - simpl. rewrite (Hall k v) by apply list_elem_of_here. by intros [].
Qed.

Lemma rebuild_all keep c :
  wf c → (∀ k v, (k, v) ∈ cache c → keep k v = true) →
  rebuild keep c = c.
Proof.
  intros Hwf Hall. rewrite rebuild_filter by done.
  destruct c as [l cap]. simpl in *. f_equal. clear Hwf.
  induction l as [|[k v] l IH]; [done|].
  rewrite filter_cons_True.
  - f_equal. apply IH. intros k' v' Hin. apply Hall. by apply list_elem_of_further.
  - simpl. rewrite (Hall k v) by apply list_elem_of_here. done.
Qed.

(** *** Where the entries of a cache come from *)

Lemma elem_of_get k c p : p ∈ cache (get k c).2 → p ∈ cache c.
Proof.
  unfold get. destruct (alookup k (cache c)) as [v|] eqn:Hl; [|done]. simpl.
  intros [Hp| ->%list_elem_of_singleton]%elem_of_app.
  - unfold remove_key in Hp. by apply list_elem_of_filter in Hp as [_ ?].
  - by apply alookup_Some_elem.
Qed.

Lemma elem_of_put k v c p : p ∈ cache (put k v c) → p = (k, v) ∨ p ∈ cache c.
Proof.
  unfold put. simpl. intros Hp.
  assert (Hp' : p ∈ remove_key k (cache c) ++ [(k, v)]).
  { destruct (_ >? _); [|done].
    destruct (remove_key k (cache c) ++ [(k, v)]); [done|].
    by apply list_elem_of_further. }
  apply elem_of_app in Hp' as [Hp'| ->%list_elem_of_singleton]; [|by left].
  right. unfold remove_key in Hp'. by apply list_elem_of_filter in Hp' as [_ ?].
Qed.

Lemma elem_of_rebuild keep c p : p ∈ cache (rebuild keep c) → p ∈ cache c.
Proof.
  unfold rebuild.
  assert (Hloop : ∀ l acc,
             p ∈ cache (fold_left (rebuild_step keep) l acc) →
             p ∈ cache acc ∨ p ∈ l).
  { induction l as [|[k v] l IH]; intros acc; simpl; [by left|].
    intros [Hp|Hp]%IH; [|right; by apply list_elem_of_further].
    unfold rebuild_step in Hp. simpl in Hp. destruct (keep k v); [|by left].
    apply elem_of_put in Hp as [->|?]; [right; apply list_elem_of_here | by left]. }
  intros [Hp|Hp]%Hloop; [|done]. by apply elem_of_nil in Hp.
Qed.

Lemma alookup_tail k v l :
  NoDup l.*1 → alookup k (tail l) = Some v → alookup k l = Some v.
Proof.
  destruct l as [|[k0 v0] l]; simpl; [done|].
  intros [Hk0 _]%NoDup_cons Hl. destruct (decide (k0 = k)) as [->|?]; [|done].
  exfalso. apply Hk0. apply alookup_Some_elem in Hl.
  apply list_elem_of_fmap. by exists (k, v).
Qed.

(** What is found after a [put] was stored by it or was there before. *)
Lemma alookup_put_Some k v c k' v' :
  wf c → alookup k' (cache (put k v c)) = Some v' →
  (k' = k ∧ v' = v) ∨ (k' ≠ k ∧ alookup k' (cache c) = Some v').
Proof.
  intros [Hnd _] Hl. unfold put in Hl. simpl in Hl.
  assert (Hl' : alookup k' (remove_key k (cache c) ++ [(k, v)]) = Some v').
  { destruct (_ >? _); [|done].
    apply alookup_tail; [|done]. by apply refreshed_NoDup. }
  rewrite alookup_app, alookup_remove_key in Hl'. simpl in Hl'.
  destruct (decide (k = k')) as [->|Hne].
  - left. split; congruence.
  - right. split; [done|]. by destruct (alookup k' (cache c)).
Qed.

(** *** Rebuilding twice *)

Lemma rebuild_ext keep keep' c :
  (∀ k v, keep k v = keep' k v) → rebuild keep c = rebuild keep' c.
Proof.
  intros Hext. unfold rebuild. generalize (new (V:=V) (K:=K) (capacity c)).
  induction (cache c) as [|[k v] l IH]; intros acc; simpl; [done|].
  unfold rebuild_step at 2 4. simpl. by rewrite Hext, IH.
Qed.

Lemma rebuild_rebuild keep1 keep2 c :
  wf c →
  rebuild keep1 (rebuild keep2 c) = rebuild (λ k v, keep1 k v && keep2 k v) c.
Proof.
  intros Hwf.
  rewrite (rebuild_filter keep1 (rebuild keep2 c)) by by apply wf_rebuild.
  rewrite !rebuild_filter by done. simpl. f_equal.
  rewrite list_filter_filter. apply list_filter_iff.
  intros [k v]. simpl. by rewrite andb_True.
Qed.

Lemma elem_of_rebuild_keep keep c k v :
  wf c → (k, v) ∈ cache (rebuild keep c) →
  keep k v = true ∧ (k, v) ∈ cache c.
Proof.
  intros Hwf. rewrite rebuild_filter by done. simpl.
  intros [Hkeep ?]%list_elem_of_filter. simpl in Hkeep.
  split; [by apply Is_true_true|done].
Qed.

End lru_facts.

(** Splits a [get] of the goal into its result and the cache it leaves. *)
Ltac split_get :=
  match goal with
  | |- context [get ?k ?c] =>
      let E := fresh "E" in
      destruct (get k c) as [? ?] eqn:E;
      apply get_inv in E as (-> & ? & ? & ?)
  end.

(** * Facts about the cache object *)

Section invariant_facts.
Context `{Collaborators}.
Implicit Types (self c : PeerRequestCache).

Local Ltac field_inv :=
  intros (?&?&?&?&?&?&?&Hcap) ? Hc;
  unfold invariant, capacities in *; simpl in *;
  rewrite ?Hc; split_and!; done.

Lemma invariant_set_blocks x c :
  invariant c → wf x → capacity x = capacity (_blocks c) →
  invariant (set_blocks x c).
Proof. field_inv. Qed.

Lemma invariant_set_block_requests x c :
  invariant c → wf x → capacity x = capacity (_block_requests c) →
  invariant (set_block_requests x c).
Proof. field_inv. Qed.

Lemma invariant_set_ses_requests x c :
  invariant c → wf x → capacity x = capacity (_ses_requests c) →
  invariant (set_ses_requests x c).
Proof. field_inv. Qed.

Lemma invariant_set_states_validated x c :
  invariant c → wf x → capacity x = capacity (_states_validated c) →
  invariant (set_states_validated x c).
Proof. field_inv. Qed.

Lemma invariant_set_timestamps x c :
  invariant c → wf x → capacity x = capacity (_timestamps c) →
  invariant (set_timestamps x c).
Proof. field_inv. Qed.

Lemma invariant_set_blocks_validated x c :
  invariant c → wf x → capacity x = capacity (_blocks_validated c) →
  invariant (set_blocks_validated x c).
Proof. field_inv. Qed.

Lemma invariant_set_block_signatures_validated x c :
  invariant c → wf x → capacity x = capacity (_block_signatures_validated c) →
  invariant (set_block_signatures_validated x c).
Proof. field_inv. Qed.

Lemma invariant_init : invariant init.
Proof.
  unfold invariant, init, capacities. simpl.
  split_and!; try (apply wf_new; lia). done.
Qed.

Lemma invariant_add_to_blocks b c : invariant c → invariant (add_to_blocks b c).2.
Proof.
  intros Hinv. unfold add_to_blocks.
  assert (Hinv1 : invariant (set_blocks (put (height b) b (_blocks c)) c)).
  { apply invariant_set_blocks; [done| |done]. apply wf_put, Hinv. }
  destruct (is_transaction_block b); [|done].
  destruct (foliage_transaction_block b) as [ftb|]; [|done].
  split_get.
  assert (Hinv2 : invariant
            (set_timestamps l (set_blocks (put (height b) b (_blocks c)) c))).
  { apply invariant_set_timestamps; [done| |done]. apply H2, Hinv1. }
  destruct (alookup _ _); [done|]. simpl.
  apply invariant_set_timestamps; [done| |done]. apply wf_put, Hinv2.
Qed.

Lemma invariant_clear_after_height h c :
  invariant c → invariant (clear_after_height h c).
Proof.
  intros Hinv. unfold clear_after_height.
  apply invariant_set_block_signatures_validated;
    [|apply wf_rebuild | apply rebuild_capacity].
  2: { simpl. apply Hinv. }
  apply invariant_set_blocks_validated;
    [|apply wf_rebuild | apply rebuild_capacity].
  2: { simpl. apply Hinv. }
  apply invariant_set_timestamps;
    [|apply wf_rebuild | apply rebuild_capacity].
  2: { simpl. apply Hinv. }
  apply invariant_set_states_validated;
    [|apply wf_rebuild | apply rebuild_capacity].
  2: { simpl. apply Hinv. }
  apply invariant_set_ses_requests;
    [|apply wf_rebuild | apply rebuild_capacity].
  2: { simpl. apply Hinv. }
  apply invariant_set_block_requests;
    [|apply wf_rebuild | apply rebuild_capacity].
  2: { simpl. apply Hinv. }
  apply invariant_set_blocks;
    [done |apply wf_rebuild | apply rebuild_capacity].
  apply Hinv.
Qed.

Lemma invariant_in_states_validated x c :
  invariant c → invariant (in_states_validated x c).2.
Proof.
  intros Hinv. unfold in_states_validated. split_get. simpl.
  apply invariant_set_states_validated; [done| |done]. apply H2, Hinv.
Qed.

Lemma invariant_exec o c : invariant c → invariant (exec o c).
Proof.
  intros Hinv. destruct o; simpl.
  - unfold get_block. split_get. simpl.
    apply invariant_set_blocks; [done| |done]. apply H2, Hinv.
  - by apply invariant_add_to_blocks.
  - unfold get_block_request. split_get. simpl.
    apply invariant_set_block_requests; [done| |done]. apply H2, Hinv.
  - apply invariant_set_block_requests; [done| |done]. apply wf_put, Hinv.
  - unfold get_ses_request. split_get. simpl.
    apply invariant_set_ses_requests; [done| |done]. apply H2, Hinv.
  - apply invariant_set_ses_requests; [done| |done]. apply wf_put, Hinv.
  - by apply invariant_in_states_validated.
  - apply invariant_set_states_validated; [done| |done]. apply wf_put, Hinv.
  - unfold get_height_timestamp. split_get. simpl.
    apply invariant_set_timestamps; [done| |done]. apply H2, Hinv.
  - apply invariant_set_blocks_validated; [done| |done]. apply wf_put, Hinv.
  - unfold in_blocks_validated. split_get. simpl.
    apply invariant_set_blocks_validated; [done| |done]. apply H2, Hinv.
  - apply invariant_set_block_signatures_validated; [done| |done].
    apply wf_put, Hinv.
  - unfold in_block_signatures_validated. split_get. simpl.
    apply invariant_set_block_signatures_validated; [done| |done].
    apply H2, Hinv.
  - by apply invariant_clear_after_height.
  - unfold can_use_peer_request_cache.
    pose proof (invariant_in_states_validated (get_hash coin_state) c Hinv).
    by destruct (in_states_validated (get_hash coin_state) c).
Qed.

(** Every state of a cache object satisfies the invariant. *)
Lemma reachable_invariant c : reachable c → invariant c.
Proof.
  induction 1 as [|o c _ IH]; [apply invariant_init | by apply invariant_exec].
Qed.

End invariant_facts.

Section history_facts.
Context `{Collaborators}.
Implicit Types (self c : PeerRequestCache).

Lemma reachable_run_from os c : reachable c → reachable (run os c).
Proof.
  revert c. induction os as [|o os IH]; intros c Hc; simpl; [done|].
  apply IH. by constructor.
Qed.

Lemma reachable_run os : reachable (run os init).
Proof. apply reachable_run_from. constructor. Qed.

Lemma same_contents_refl {K V} `{EqDecision K} (x : LRUCache K V) :
  same_contents x x.
Proof. by intros k. Qed.

Lemma in_states_validated_capacities x c :
  capacities (in_states_validated x c).2 = capacities c.
Proof.
  unfold in_states_validated. split_get. unfold capacities. simpl. congruence.
Qed.

Lemma add_to_blocks_capacities b c :
  capacities (add_to_blocks b c).2 = capacities c.
Proof.
  unfold add_to_blocks.
  destruct (is_transaction_block b); [|done].
  destruct (foliage_transaction_block b) as [ftb|]; [|done].
  split_get. destruct (alookup _ _); unfold capacities; simpl in *; congruence.
Qed.

Lemma clear_after_height_capacities h c :
  capacities (clear_after_height h c) = capacities c.
Proof.
  unfold clear_after_height, capacities. simpl.
  by rewrite !rebuild_capacity.
Qed.

Lemma exec_capacities o c : capacities (exec o c) = capacities c.
Proof.
  destruct o; simpl;
    try (unfold capacities; simpl; done);
    try apply add_to_blocks_capacities;
    try apply clear_after_height_capacities;
    try apply in_states_validated_capacities.
  - unfold get_block. split_get. unfold capacities. simpl. congruence.
  - unfold get_block_request. split_get. unfold capacities. simpl. congruence.
  - unfold get_ses_request. split_get. unfold capacities. simpl. congruence.
  - unfold get_height_timestamp. split_get. unfold capacities. simpl. congruence.
  - unfold in_blocks_validated. split_get. unfold capacities. simpl. congruence.
  - unfold in_block_signatures_validated. split_get.
    unfold capacities. simpl. congruence.
  - unfold can_use_peer_request_cache.
    pose proof (in_states_validated_capacities (get_hash coin_state) c).
    by destruct (in_states_validated (get_hash coin_state) c).
Qed.

Lemma run_capacities os c : capacities (run os c) = capacities c.
Proof.
  revert c. induction os as [|o os IH]; intros c; simpl; [done|].
  by rewrite IH, exec_capacities.
Qed.

Lemma invariant_capacities c :
  invariant c →
  capacity (_blocks c) = 100 ∧ capacity (_block_requests c) = 100
  ∧ capacity (_ses_requests c) = 100 ∧ capacity (_states_validated c) = 1000
  ∧ capacity (_timestamps c) = 1000 ∧ capacity (_blocks_validated c) = 1000
  ∧ capacity (_block_signatures_validated c) = 1000.
Proof.
  intros (_&_&_&_&_&_&_&Hcap). unfold capacities in Hcap.
  injection Hcap as -> -> -> -> -> -> ->. done.
Qed.

Lemma states_validated_add (cs : CoinState) c :
  _states_validated (add_to_states_validated cs c)
  = put (get_hash cs) (cs_height cs) (_states_validated c).
Proof. done. Qed.

Lemma block_signatures_validated_add (b : HeaderBlock) c :
  _block_signatures_validated (add_to_block_signatures_validated b c)
  = put (_calculate_sig_hash_from_block b) (height b)
      (_block_signatures_validated c).
Proof. done. Qed.

(** A coin state without heights is stored with the value none. *)
Lemma unconfirmed_stored (cs : CoinState) c :
  invariant c →
  created_height cs = None → spent_height cs = None →
  alookup (get_hash cs) (cache (_states_validated (add_to_states_validated cs c)))
  = Some None.
Proof.
  intros Hinv Hcreated Hspent.
  apply invariant_capacities in Hinv as (_&_&_&Hcap&_).
  rewrite states_validated_add, alookup_put_eq by lia.
  unfold cs_height. by rewrite Hspent, Hcreated.
Qed.

(** The test of [in_states_validated] in terms of the stored value. *)
Lemma in_states_validated_result x c :
  (in_states_validated x c).1 =
  match alookup x (cache (_states_validated c)) with
  | Some (Some _) => true
  | _ => false
  end.
Proof. unfold in_states_validated. split_get. done. Qed.

(** The predicate follows the decision sequence, started from the answer
    of [in_states_validated]. *)
Lemma can_use_peer_request_cache_decides (cs : CoinState) c f :
  (can_use_peer_request_cache cs c f).1 =
  decision_sequence (in_states_validated (get_hash cs) c).1
    (created_height cs) (spent_height cs) f.
Proof.
  unfold can_use_peer_request_cache, decision_sequence.
  destruct (in_states_validated (get_hash cs) c) as [b c']. simpl.
  destruct b; simpl; [|done].
  destruct f as [f|]; [|done].
  by destruct (created_height cs), (spent_height cs).
Qed.

(** The answer of [in_states_validated] is the presence of the key, unless
    the key is stored without a height. *)
Lemma in_states_validated_is_key x c :
  alookup x (cache (_states_validated c)) ≠ Some None →
  (in_states_validated x c).1 = is_key x c.
Proof.
  intros Hne. rewrite in_states_validated_result. unfold is_key.
  by destruct (alookup x (cache (_states_validated c))) as [[?|]|].
Qed.

(** *** The timestamps after [add_to_blocks] *)

Lemma add_to_blocks_timestamps (b : HeaderBlock) c :
  _timestamps (add_to_blocks b c).2 =
  if is_transaction_block b then
    match foliage_transaction_block b with
    | None => _timestamps c
    | Some ftb =>
        match alookup (height b) (cache (_timestamps c)) with
        | Some _ => (get (height b) (_timestamps c)).2
        | None => put (height b) (timestamp ftb) (_timestamps c)
        end
    end
  else _timestamps c.
Proof.
  unfold add_to_blocks.
  destruct (is_transaction_block b); [|done].
  destruct (foliage_transaction_block b) as [ftb|]; [|done].
  cbn [_timestamps set_blocks]. unfold get.
  by destruct (alookup (height b) (cache (_timestamps c))).
Qed.

Lemma add_to_blocks_timestamp_at (b : HeaderBlock) ftb c :
  invariant c →
  is_transaction_block b = true → foliage_transaction_block b = Some ftb →
  alookup (height b) (cache (_timestamps (add_to_blocks b c).2))
  = Some (match alookup (height b) (cache (_timestamps c)) with
          | Some t => t
          | None => timestamp ftb
          end).
Proof.
  intros Hinv Htx Hftb.
  apply invariant_capacities in Hinv as (_&_&_&_&Hcap&_).
  rewrite add_to_blocks_timestamps, Htx, Hftb.
  destruct (alookup (height b) (cache (_timestamps c))) as [t|] eqn:Hl.
  - by rewrite get_same_contents.
  - by rewrite alookup_put_eq by lia.
Qed.

Lemma add_to_blocks_timestamp_origin (b : HeaderBlock) c h t :
  invariant c →
  alookup h (cache (_timestamps (add_to_blocks b c).2)) = Some t →
  alookup h (cache (_timestamps c)) = Some t
  ∨ (is_transaction_block b = true ∧ h = height b
     ∧ alookup h (cache (_timestamps c)) = None
     ∧ timestamp <$> foliage_transaction_block b = Some t).
Proof.
  intros Hinv. rewrite add_to_blocks_timestamps.
  destruct (is_transaction_block b); [|by left].
  destruct (foliage_transaction_block b) as [ftb|]; [|by left].
  destruct (alookup (height b) (cache (_timestamps c))) as [t0|] eqn:Hl.
  - rewrite get_same_contents. by left.
  - intros Hput. apply alookup_put_Some in Hput as [[-> ->]|[_ ?]].
    + by right.
    + by left.
    + apply Hinv.
Qed.

(** *** The caches after [clear_after_height] *)

Lemma clear_after_height_fields h c :
  clear_after_height h c =
  {| _blocks := rebuild (λ k _, k <=? h) (_blocks c);
     _block_requests :=
       rebuild (λ k _, (k.1 <=? h) && (k.2 <=? h)) (_block_requests c);
     _ses_requests := rebuild (λ k _, k <=? h) (_ses_requests c);
     _states_validated :=
       rebuild (λ _ cs_height,
                  match cs_height with Some x => x <=? h | None => false end)
               (_states_validated c);
     _timestamps := rebuild (λ k _, k <=? h) (_timestamps c);
     _blocks_validated := rebuild (λ _ x, x <=? h) (_blocks_validated c);
     _block_signatures_validated :=
       rebuild (λ _ x, x <=? h) (_block_signatures_validated c) |}.
Proof. done. Qed.

Lemma elem_cached_heights x c :
  x ∈ cached_heights c ↔
  (∃ v, (x, v) ∈ cache (_blocks c))
  ∨ (∃ k v, (k, v) ∈ cache (_block_requests c) ∧ (x = k.1 ∨ x = k.2))
  ∨ (∃ v, (x, v) ∈ cache (_ses_requests c))
  ∨ (∃ k, (k, Some x) ∈ cache (_states_validated c))
  ∨ (∃ v, (x, v) ∈ cache (_timestamps c))
  ∨ (∃ k, (k, x) ∈ cache (_blocks_validated c))
  ∨ (∃ k, (k, x) ∈ cache (_block_signatures_validated c)).
Proof.
  unfold cached_heights. rewrite !elem_of_app, !list_elem_of_fmap.
  rewrite list_elem_of_bind, list_elem_of_omap.
  repeat (apply Morphisms_Prop.or_iff_morphism); split.
  - intros ([k v] & -> & ?). by exists v.
  - intros (v & ?). by exists (x, v).
  - intros ([k v] & Hx & ?). exists k, v. split; [done|]. simpl in Hx.
    apply elem_of_cons in Hx as [->|Hx]; [by left|].
    apply list_elem_of_singleton in Hx as ->. by right.
  - intros (k & v & ? & Hx). exists (k, v). split; [|done]. simpl.
    destruct Hx as [->| ->]; [apply list_elem_of_here|].
    apply list_elem_of_further, list_elem_of_here.
  - intros ([k v] & -> & ?). by exists v.
  - intros (v & ?). by exists (x, v).
  - intros ([k v] & ? & Hv). simpl in Hv. subst v. by exists k.
  - intros (k & ?). by exists (k, Some x).
  - intros ([k v] & -> & ?). by exists v.
  - intros (v & ?). by exists (x, v).
  - intros ([k v] & -> & ?). by exists k.
  - intros (k & ?). by exists (k, x).
  - intros ([k v] & -> & ?). by exists k.
  - intros (k & ?). by exists (k, x).
Qed.

(** *** The entries of the validated states *)

Lemma stored_for_coin_states_exec o c :
  stored_for_coin_states c → stored_for_coin_states (exec o c).
Proof.
  intros Hc k v.
  assert (Hin : ∀ x, (k, v) ∈ cache (_states_validated (in_states_validated x c).2) →
                     ∃ cs, k = get_hash cs ∧ v = cs_height cs).
  { intros x. unfold in_states_validated.
    pose proof (elem_of_get x (_states_validated c) (k, v)) as Hget.
    destruct (get x (_states_validated c)). simpl in *. auto. }
  destruct o; cbn [exec]; try apply Hc; try apply Hin.
  - unfold get_block. destruct (get _ _). apply Hc.
  - unfold add_to_blocks.
    destruct (is_transaction_block b); [|apply Hc].
    destruct (foliage_transaction_block b); [|apply Hc].
    destruct (get _ _) as [[?|] ?]; apply Hc.
  - unfold get_block_request. destruct (get _ _). apply Hc.
  - unfold get_ses_request. destruct (get _ _). apply Hc.
  - rewrite states_validated_add.
    intros [[= -> ->]|?]%elem_of_put; [by eexists | by apply Hc].
  - unfold get_height_timestamp. destruct (get _ _). apply Hc.
  - unfold in_blocks_validated. destruct (get _ _). apply Hc.
  - unfold in_block_signatures_validated. destruct (get _ _). apply Hc.
  - rewrite clear_after_height_fields. simpl.
    intros ?%elem_of_rebuild. by apply Hc.
  - unfold can_use_peer_request_cache.
    specialize (Hin (get_hash coin_state)).
    by destruct (in_states_validated (get_hash coin_state) c).
Qed.

Lemma reachable_stored_for_coin_states c :
  reachable c → stored_for_coin_states c.
Proof.
  induction 1 as [|o c _ IH]; [|by apply stored_for_coin_states_exec].
  intros k v Hin. by apply elem_of_nil in Hin.
Qed.

(** When distinct coin states have distinct hashes, a coin state for which
    [in_states_validated] answers true has a height: the third step of the
    predicate (both heights absent) is never the one that decides. *)
Lemma validated_has_height `{!Inj (=) (=) get_hash} (cs : CoinState) c :
  reachable c →
  (in_states_validated (get_hash cs) c).1 = true →
  is_None (created_height cs) && is_None (spent_height cs) = false.
Proof.
  intros Hc%reachable_stored_for_coin_states. rewrite in_states_validated_result.
  destruct (alookup (get_hash cs) (cache (_states_validated c)))
    as [[x|]|] eqn:Hl; [|done..].
  intros _. apply alookup_Some_elem, Hc in Hl as (cs' & Heq & Hx).
  apply (inj get_hash) in Heq as <-. unfold cs_height in Hx.
  by destruct (spent_height cs), (created_height cs).
Qed.

End history_facts.

(** * The properties of the specification *)

Section properties.
Context `{Collaborators}.
Implicit Types (self c : PeerRequestCache).

(** C10. Truncation gives every replacement cache the capacity of the
    cache it replaces, no call changes a capacity, and so after any
    sequence of calls on a newly constructed object the capacities are
    those of the constructor: 100, 100, 100, 1000, 1000, 1000, 1000. *)
Theorem capacities_invariant :
  (∀ h c, capacities (clear_after_height h c) = capacities c)
  ∧ (∀ o c, capacities (exec o c) = capacities c)
  ∧ (∀ os, capacities (run os init) = [100; 100; 100; 1000; 1000; 1000; 1000]).
Proof.
  split_and!.
  - apply clear_after_height_capacities.
  - apply exec_capacities.
  - intros os. by rewrite run_capacities.
Qed.

(** C9. Evaluating the predicate leaves the key-to-value mapping of each
    of the seven caches as it was. *)
Theorem can_use_peer_request_cache_same_mappings
    (cs : CoinState) c (fork_height : option Z) :
  same_mappings (can_use_peer_request_cache cs c fork_height).2 c.
Proof.
  unfold can_use_peer_request_cache, in_states_validated.
  split_get. simpl. unfold same_mappings. simpl.
  split_and!; try apply same_contents_refl. done.
Qed.

(** C7. Truncating twice at the same cutoff gives the state that
    truncating once gives, hence the same mappings. *)
Theorem clear_after_height_idempotent h c :
  reachable c →
  clear_after_height h (clear_after_height h c) = clear_after_height h c
  ∧ same_mappings (clear_after_height h (clear_after_height h c))
                  (clear_after_height h c).
Proof.
  intros Hinv%reachable_invariant.
  assert (Heq : clear_after_height h (clear_after_height h c)
                = clear_after_height h c).
  { destruct Hinv as (?&?&?&?&?&?&?&_).
    unfold clear_after_height. simpl. unfold set_block_signatures_validated.
    simpl. f_equal; by apply rebuild_twice. }
  split; [done|]. rewrite Heq.
  unfold same_mappings. split_and!; apply same_contents_refl.
Qed.

(** C4. Adding a coin state stores, under its hash, the spent height if
    there is one, else the created height if there is one, else none. *)
Theorem add_to_states_validated_stores (cs : CoinState) c :
  reachable c →
  alookup (get_hash cs) (cache (_states_validated (add_to_states_validated cs c)))
  = Some (match spent_height cs with
          | Some s => Some s
          | None => created_height cs
          end).
Proof.
  intros Hinv%reachable_invariant.
  apply invariant_capacities in Hinv as (_&_&_&Hcap&_).
  rewrite states_validated_add, alookup_put_eq by lia. unfold cs_height.
  by destruct (spent_height cs), (created_height cs).
Qed.

(** C5. Two header blocks with the same plot public key bytes, foliage
    block data bytes and foliage block data signature bytes have the same
    signature fingerprint, whatever their heights, and once one of them is
    added to the validated signatures the other is found there. *)
Theorem signature_fingerprint_ignores_height (b1 b2 : HeaderBlock) c :
  reachable c →
  plot_public_key (proof_of_space (reward_chain_block b1))
  = plot_public_key (proof_of_space (reward_chain_block b2)) →
  foliage_block_data (foliage b1) = foliage_block_data (foliage b2) →
  foliage_block_data_signature (foliage b1)
  = foliage_block_data_signature (foliage b2) →
  _calculate_sig_hash_from_block b1 = _calculate_sig_hash_from_block b2
  ∧ (in_block_signatures_validated b2
       (add_to_block_signatures_validated b1 c)).1 = true.
Proof.
  intros Hinv%reachable_invariant Hpk Hdata Hsig.
  apply invariant_capacities in Hinv as (_&_&_&_&_&_&Hcap).
  assert (Heq : _calculate_sig_hash_from_block b1
                = _calculate_sig_hash_from_block b2).
  { unfold _calculate_sig_hash_from_block. by rewrite Hpk, Hdata, Hsig. }
  split; [done|].
  unfold in_block_signatures_validated. rewrite <- Heq. split_get.
  rewrite block_signatures_validated_add, alookup_put_eq by lia. done.
Qed.

(** C8. A block flagged as a transaction block whose transaction foliage
    is absent makes [add_to_blocks] fail its assert, and the timestamps
    are left as they were; when the transaction foliage is present
    whenever the flag is set, [add_to_blocks] returns. *)
Theorem add_to_blocks_asserts_foliage (b : HeaderBlock) c :
  (is_transaction_block b = true → foliage_transaction_block b = None →
   (add_to_blocks b c).1 = AssertionError
   ∧ _timestamps (add_to_blocks b c).2 = _timestamps c)
  ∧ ((is_transaction_block b = true → is_Some (foliage_transaction_block b)) →
     (add_to_blocks b c).1 = Returned ()).
Proof.
  unfold add_to_blocks. split.
  - by intros -> ->.
  - intros Hftb. destruct (is_transaction_block b); [|done].
    destruct Hftb as [ftb ->]; [done|].
    split_get. by destruct (alookup _ _).
Qed.

(** C2 (the code departs from it). A coin state with neither height is
    stored by [add_to_states_validated] under its hash with the value
    none, and [in_states_validated] then answers false for that hash. *)
Theorem in_states_validated_misses_unconfirmed (cs : CoinState) c :
  reachable c →
  created_height cs = None → spent_height cs = None →
  alookup (get_hash cs) (cache (_states_validated (add_to_states_validated cs c)))
  = Some None
  ∧ (in_states_validated (get_hash cs) (add_to_states_validated cs c)).1 = false.
Proof.
  intros Hinv%reachable_invariant Hcreated Hspent.
  pose proof (unconfirmed_stored cs c Hinv Hcreated Hspent) as Hstored.
  split; [done|]. by rewrite in_states_validated_result, Hstored.
Qed.

(** C1 (the code departs from it). After a coin state with neither height
    is added, its hash is a key of the validated states and the decision
    sequence of the specification answers true when there is no fork
    height, yet the predicate answers false. *)
Theorem can_use_rejects_validated_unconfirmed (cs : CoinState) c :
  reachable c →
  created_height cs = None → spent_height cs = None →
  is_key (get_hash cs) (add_to_states_validated cs c) = true
  ∧ decision_sequence (is_key (get_hash cs) (add_to_states_validated cs c))
      (created_height cs) (spent_height cs) None = true
  ∧ (can_use_peer_request_cache cs (add_to_states_validated cs c) None).1 = false.
Proof.
  intros Hinv%reachable_invariant Hcreated Hspent.
  pose proof (unconfirmed_stored cs c Hinv Hcreated Hspent) as Hstored.
  assert (Hkey : is_key (get_hash cs) (add_to_states_validated cs c) = true).
  { unfold is_key. by rewrite Hstored. }
  split_and!; [done| |].
  - unfold decision_sequence. by rewrite Hkey.
  - rewrite can_use_peer_request_cache_decides, in_states_validated_result.
    by rewrite Hstored.
Qed.

(** C6. With respect to the timestamps, [add_to_blocks] (1) changes
    nothing when the block is no transaction block; (2) makes a timestamp
    appear at a height only for a transaction block of that height for
    which none was recorded; (3) after two transaction blocks of the same
    height are added, [get_height_timestamp] returns the timestamp that
    was recorded first for that height: that of the first of the two when
    none was recorded before. *)
Theorem add_to_blocks_first_timestamp_wins c :
  reachable c →
  (∀ b : HeaderBlock, is_transaction_block b = false →
     _timestamps (add_to_blocks b c).2 = _timestamps c)
  ∧ (∀ (b : HeaderBlock) h t,
       alookup h (cache (_timestamps (add_to_blocks b c).2)) = Some t →
       alookup h (cache (_timestamps c)) = Some t
       ∨ (is_transaction_block b = true ∧ h = height b
          ∧ alookup h (cache (_timestamps c)) = None
          ∧ timestamp <$> foliage_transaction_block b = Some t))
  ∧ (∀ (b1 b2 : HeaderBlock) ftb1 ftb2,
       is_transaction_block b1 = true → foliage_transaction_block b1 = Some ftb1 →
       is_transaction_block b2 = true → foliage_transaction_block b2 = Some ftb2 →
       height b1 = height b2 →
       (get_height_timestamp (height b1)
          (add_to_blocks b2 (add_to_blocks b1 c).2).2).1
       = Some (match alookup (height b1) (cache (_timestamps c)) with
               | Some t => t
               | None => timestamp ftb1
               end)).
Proof.
  intros Hinv%reachable_invariant. split_and!.
  - intros b Htx. by rewrite add_to_blocks_timestamps, Htx.
  - intros b h t. by apply add_to_blocks_timestamp_origin.
  - intros b1 b2 ftb1 ftb2 Htx1 Hftb1 Htx2 Hftb2 Hh.
    pose proof (invariant_add_to_blocks b1 c Hinv) as Hinv1.
    unfold get_height_timestamp. split_get. simpl.
    rewrite Hh, (add_to_blocks_timestamp_at b2 ftb2) by done.
    rewrite <- Hh, (add_to_blocks_timestamp_at b1 ftb1) by done.
    done.
Qed.

(** C3 (as amended). After truncation at [h] each cache holds exactly
    those of its prior entries, with their values, that satisfy its keep
    rule; when [h] is below every cached height all seven caches are
    empty; when [h] is at or above every cached height six caches are as
    they were, and the validated states keep exactly the entries stored
    with a height. *)
Theorem clear_after_height_keeps h c :
  reachable c →
  (keeps_exactly (λ k _, k ≤ h)
     (_blocks (clear_after_height h c)) (_blocks c)
   ∧ keeps_exactly (λ k _, k.1 ≤ h ∧ k.2 ≤ h)
       (_block_requests (clear_after_height h c)) (_block_requests c)
   ∧ keeps_exactly (λ k _, k ≤ h)
       (_ses_requests (clear_after_height h c)) (_ses_requests c)
   ∧ keeps_exactly (λ _ v, ∃ x, v = Some x ∧ x ≤ h)
       (_states_validated (clear_after_height h c)) (_states_validated c)
   ∧ keeps_exactly (λ k _, k ≤ h)
       (_timestamps (clear_after_height h c)) (_timestamps c)
   ∧ keeps_exactly (λ _ x, x ≤ h)
       (_blocks_validated (clear_after_height h c)) (_blocks_validated c)
   ∧ keeps_exactly (λ _ x, x ≤ h)
       (_block_signatures_validated (clear_after_height h c))
       (_block_signatures_validated c))
  ∧ ((∀ x, x ∈ cached_heights c → h < x) →
     cache (_blocks (clear_after_height h c)) = []
     ∧ cache (_block_requests (clear_after_height h c)) = []
     ∧ cache (_ses_requests (clear_after_height h c)) = []
     ∧ cache (_states_validated (clear_after_height h c)) = []
     ∧ cache (_timestamps (clear_after_height h c)) = []
     ∧ cache (_blocks_validated (clear_after_height h c)) = []
     ∧ cache (_block_signatures_validated (clear_after_height h c)) = [])
  ∧ ((∀ x, x ∈ cached_heights c → x ≤ h) →
     _blocks (clear_after_height h c) = _blocks c
     ∧ _block_requests (clear_after_height h c) = _block_requests c
     ∧ _ses_requests (clear_after_height h c) = _ses_requests c
     ∧ keeps_exactly (λ _ v, v ≠ None)
         (_states_validated (clear_after_height h c)) (_states_validated c)
     ∧ _timestamps (clear_after_height h c) = _timestamps c
     ∧ _blocks_validated (clear_after_height h c) = _blocks_validated c
     ∧ _block_signatures_validated (clear_after_height h c)
       = _block_signatures_validated c).
Proof.
  intros Hinv%reachable_invariant.
  destruct Hinv as (Hb & Hbr & Hs & Hsv & Ht & Hbv & Hbsv & _).
  rewrite clear_after_height_fields. simpl. split_and!.
  - apply keeps_exactly_rebuild; [done|]. intros k _. apply Z.leb_le.
  - apply keeps_exactly_rebuild; [done|]. intros k _.
    by rewrite andb_true_iff, !Z.leb_le.
  - apply keeps_exactly_rebuild; [done|]. intros k _. apply Z.leb_le.
  - apply keeps_exactly_rebuild; [done|]. intros _ [x|].
    + rewrite Z.leb_le. split; [by exists x | by intros (? & [= <-] & ?)].
    + split; [done | by intros (? & ? & _)].
  - apply keeps_exactly_rebuild; [done|]. intros k _. apply Z.leb_le.
  - apply keeps_exactly_rebuild; [done|]. intros _ x. apply Z.leb_le.
  - apply keeps_exactly_rebuild; [done|]. intros _ x. apply Z.leb_le.
  - intros Hbelow.
    assert (Hgt : ∀ x, x ∈ cached_heights c → (x <=? h) = false).
    { intros x Hx. apply Z.leb_gt. by apply Hbelow. }
    split_and!; (apply rebuild_none; [done|]); intros k v Hin.
    + apply Hgt, elem_cached_heights. left. by exists v.
    + apply andb_false_iff. left.
      apply Hgt, elem_cached_heights. right; left. exists k, v. by auto.
    + apply Hgt, elem_cached_heights. do 2 right; left. by exists v.
    + destruct v as [x|]; [|done].
      apply Hgt, elem_cached_heights. do 3 right; left. by exists k.
    + apply Hgt, elem_cached_heights. do 4 right; left. by exists v.
    + apply Hgt, elem_cached_heights. do 5 right; left. by exists k.
    + apply Hgt, elem_cached_heights. do 6 right. by exists k.
  - intros Habove.
    assert (Hle : ∀ x, x ∈ cached_heights c → (x <=? h) = true).
    { intros x Hx. apply Z.leb_le. by apply Habove. }
    split_and!.
    + apply rebuild_all; [done|]. intros k v Hin.
      apply Hle, elem_cached_heights. left. by exists v.
    + apply rebuild_all; [done|]. intros k v Hin.
      apply andb_true_iff. split; apply Hle, elem_cached_heights;
        right; left; exists k, v; by auto.
    + apply rebuild_all; [done|]. intros k v Hin.
      apply Hle, elem_cached_heights. do 2 right; left. by exists v.
    + intros k v. rewrite alookup_rebuild by done.
      destruct (alookup k (cache (_states_validated c))) as [[x|]|] eqn:Hl.
      * rewrite Hle; [by split; [intros [= <-] | intros [? _]]|].
        apply elem_cached_heights. do 3 right; left. exists k.
        by apply alookup_Some_elem.
      * split; [done | by intros [[= <-] ?]].
      * split; [done | by intros [? _]].
    + apply rebuild_all; [done|]. intros k v Hin.
      apply Hle, elem_cached_heights. do 4 right; left. by exists v.
    + apply rebuild_all; [done|]. intros k v Hin.
      apply Hle, elem_cached_heights. do 5 right; left. by exists k.
    + apply rebuild_all; [done|]. intros k v Hin.
      apply Hle, elem_cached_heights. do 6 right. by exists k.
Qed.

End properties.

(** * Further properties of the cache object *)

Section accessor_facts.
Context `{Collaborators}.
Implicit Types (self c : PeerRequestCache).

(** What each query returns, in terms of the mapping it reads. *)
Lemma get_block_result h c : (get_block h c).1 = alookup h (cache (_blocks c)).
Proof. unfold get_block. split_get. done. Qed.

Lemma get_block_request_result start end_ c :
  (get_block_request start end_ c).1
  = alookup (start, end_) (cache (_block_requests c)).
Proof. unfold get_block_request. split_get. done. Qed.

Lemma get_ses_request_result h c :
  (get_ses_request h c).1 = alookup h (cache (_ses_requests c)).
Proof. unfold get_ses_request. split_get. done. Qed.

Lemma get_height_timestamp_result h c :
  (get_height_timestamp h c).1 = alookup h (cache (_timestamps c)).
Proof. unfold get_height_timestamp. split_get. done. Qed.

Lemma in_blocks_validated_result x c :
  (in_blocks_validated x c).1
  = negb (is_None (alookup x (cache (_blocks_validated c)))).
Proof. unfold in_blocks_validated. split_get. by destruct (alookup _ _). Qed.

Lemma in_block_signatures_validated_result (b : HeaderBlock) c :
  (in_block_signatures_validated b c).1
  = negb (is_None (alookup (_calculate_sig_hash_from_block b)
                     (cache (_block_signatures_validated c)))).
Proof.
  unfold in_block_signatures_validated. split_get. by destruct (alookup _ _).
Qed.

(** The blocks after [add_to_blocks], whatever its outcome. *)
Lemma blocks_add_to_blocks (b : HeaderBlock) c :
  _blocks (add_to_blocks b c).2 = put (height b) b (_blocks c).
Proof.
  unfold add_to_blocks.
  destruct (is_transaction_block b); [|done].
  destruct (foliage_transaction_block b); [|done].
  by destruct (get _ _) as [[?|] ?].
Qed.

(** The mappings after a query. *)
Lemma query_same_mappings o c : is_query o = true → same_mappings (exec o c) c.
Proof.
  assert (Hin : ∀ x, same_mappings (in_states_validated x c).2 c).
  { intros x. unfold in_states_validated. split_get.
    unfold same_mappings. simpl. split_and!; try apply same_contents_refl. done. }
  destruct o; try done; intros _; cbn [exec]; try apply Hin.
  - unfold get_block. split_get.
    unfold same_mappings. simpl. split_and!; try apply same_contents_refl. done.
  - unfold get_block_request. split_get.
    unfold same_mappings. simpl. split_and!; try apply same_contents_refl. done.
  - unfold get_ses_request. split_get.
    unfold same_mappings. simpl. split_and!; try apply same_contents_refl. done.
  - unfold get_height_timestamp. split_get.
    unfold same_mappings. simpl. split_and!; try apply same_contents_refl. done.
  - unfold in_blocks_validated. split_get.
    unfold same_mappings. simpl. split_and!; try apply same_contents_refl. done.
  - unfold in_block_signatures_validated. split_get.
    unfold same_mappings. simpl. split_and!; try apply same_contents_refl. done.
  - unfold can_use_peer_request_cache. specialize (Hin (get_hash coin_state)).
    by destruct (in_states_validated (get_hash coin_state) c).
Qed.

(** *** Where cached entries come from *)

(** If every call either keeps the entries of some cache or adds one of a
    given origin, then after a sequence of calls every entry was there at
    the start or has its origin in one of the calls. *)
Lemma provenance_run {A : Type} (entries : PeerRequestCache → list A)
    (origin : call → A → Prop) :
  (∀ o c a, a ∈ entries (exec o c) → a ∈ entries c ∨ origin o a) →
  ∀ os c a, a ∈ entries (run os c) →
            a ∈ entries c ∨ ∃ o, o ∈ os ∧ origin o a.
Proof.
  intros Hexec os. induction os as [|o os IH]; intros c a; simpl; [by left|].
  intros [[?|?]%Hexec|(o' & ? & ?)]%IH.
  - by left.
  - right. exists o. split; [apply list_elem_of_here | done].
  - right. exists o'. split; [by apply list_elem_of_further | done].
Qed.

Lemma states_validated_exec o c k v :
  (k, v) ∈ cache (_states_validated (exec o c)) →
  (k, v) ∈ cache (_states_validated c)
  ∨ ∃ cs, o = AddToStatesValidated cs ∧ k = get_hash cs ∧ v = cs_height cs.
Proof.
  assert (Hin : ∀ x, (k, v) ∈ cache (_states_validated (in_states_validated x c).2) →
                     (k, v) ∈ cache (_states_validated c)).
  { intros x. unfold in_states_validated.
    pose proof (elem_of_get x (_states_validated c) (k, v)) as Hget.
    destruct (get x (_states_validated c)). simpl in *. auto. }
  destruct o; cbn [exec]; try (by left); try (intros ?%Hin; by left).
  - unfold get_block. destruct (get _ _). by left.
  - unfold add_to_blocks.
    destruct (is_transaction_block b); [|by left].
    destruct (foliage_transaction_block b); [|by left].
    destruct (get _ _) as [[?|] ?]; by left.
  - unfold get_block_request. destruct (get _ _). by left.
  - unfold get_ses_request. destruct (get _ _). by left.
  - rewrite states_validated_add.
    intros [[= -> ->]|?]%elem_of_put; [right; by eexists | by left].
  - unfold get_height_timestamp. destruct (get _ _). by left.
  - unfold in_blocks_validated. destruct (get _ _). by left.
  - unfold in_block_signatures_validated. destruct (get _ _). by left.
  - rewrite clear_after_height_fields. simpl.
    intros ?%elem_of_rebuild. by left.
  - unfold can_use_peer_request_cache.
    specialize (Hin (get_hash coin_state)).
    destruct (in_states_validated (get_hash coin_state) c). simpl in *.
    intros ?%Hin. by left.
Qed.

Lemma timestamps_exec o c h t :
  (h, t) ∈ cache (_timestamps (exec o c)) →
  (h, t) ∈ cache (_timestamps c)
  ∨ ∃ b ftb, o = AddToBlocks b ∧ is_transaction_block b = true
             ∧ foliage_transaction_block b = Some ftb
             ∧ h = height b ∧ t = timestamp ftb.
Proof.
  destruct o; cbn [exec]; try (by left).
  - unfold get_block. destruct (get _ _). by left.
  - rewrite add_to_blocks_timestamps.
    destruct (is_transaction_block b) eqn:Htx; [|by left].
    destruct (foliage_transaction_block b) as [ftb|] eqn:Hftb; [|by left].
    destruct (alookup (height b) (cache (_timestamps c))).
    + intros ?%elem_of_get. by left.
    + intros [[= -> ->]|?]%elem_of_put; [|by left].
      right. by exists b, ftb.
  - unfold get_block_request. destruct (get _ _). by left.
  - unfold get_ses_request. destruct (get _ _). by left.
  - unfold in_states_validated. destruct (get _ _). by left.
  - unfold get_height_timestamp.
    pose proof (elem_of_get h0 (_timestamps c) (h, t)) as Hget.
    destruct (get _ _). simpl in *. intros ?%Hget. by left.
  - unfold in_blocks_validated. destruct (get _ _). by left.
  - unfold in_block_signatures_validated. destruct (get _ _). by left.
  - rewrite clear_after_height_fields. simpl.
    intros ?%elem_of_rebuild. by left.
  - unfold can_use_peer_request_cache, in_states_validated.
    destruct (get _ _). by left.
Qed.

Lemma blocks_exec o c h (b : HeaderBlock) :
  (h, b) ∈ cache (_blocks (exec o c)) →
  (h, b) ∈ cache (_blocks c) ∨ (o = AddToBlocks b ∧ h = height b).
Proof.
  destruct o; cbn [exec]; try (by left).
  - unfold get_block.
    pose proof (elem_of_get h0 (_blocks c) (h, b)) as Hget.
    destruct (get _ _). simpl in *. intros ?%Hget. by left.
  - rewrite blocks_add_to_blocks.
    intros [[= -> ->]|?]%elem_of_put; [by right | by left].
  - unfold get_block_request. destruct (get _ _). by left.
  - unfold get_ses_request. destruct (get _ _). by left.
  - unfold in_states_validated. destruct (get _ _). by left.
  - unfold get_height_timestamp. destruct (get _ _). by left.
  - unfold in_blocks_validated. destruct (get _ _). by left.
  - unfold in_block_signatures_validated. destruct (get _ _). by left.
  - rewrite clear_after_height_fields. simpl.
    intros ?%elem_of_rebuild. by left.
  - unfold can_use_peer_request_cache, in_states_validated.
    destruct (get _ _). by left.
Qed.

End accessor_facts.

Section further_properties.
Context `{Collaborators}.
Implicit Types (self c : PeerRequestCache).

(** X1. After [add_to_blocks], [get_block] at the height of the block
    returns that block, also when the call failed its assert and when
    another block was cached at that height before. *)
Theorem get_block_after_add_to_blocks (b : HeaderBlock) c :
  reachable c →
  (get_block (height b) (add_to_blocks b c).2).1 = Some b.
Proof.
  intros Hinv%reachable_invariant.
  apply invariant_capacities in Hinv as (Hcap&_).
  rewrite get_block_result, blocks_add_to_blocks.
  by rewrite alookup_put_eq by lia.
Qed.

(** X2. After [add_to_block_requests], [get_block_request] for the same
    range returns the request that was added. *)
Theorem get_block_request_after_add (start end_ : Z) (request : Task) c :
  reachable c →
  (get_block_request start end_
     (add_to_block_requests start end_ request c)).1 = Some request.
Proof.
  intros Hinv%reachable_invariant.
  apply invariant_capacities in Hinv as (_&Hcap&_).
  rewrite get_block_request_result.
  change (_block_requests (add_to_block_requests start end_ request c))
    with (put (start, end_) request (_block_requests c)).
  by rewrite alookup_put_eq by lia.
Qed.

(** X3. After [add_to_ses_requests], [get_ses_request] at the same height
    returns the response that was added. *)
Theorem get_ses_request_after_add (h : Z) (ses : RespondSESInfo) c :
  reachable c →
  (get_ses_request h (add_to_ses_requests h ses c)).1 = Some ses.
Proof.
  intros Hinv%reachable_invariant.
  apply invariant_capacities in Hinv as (_&_&Hcap&_).
  rewrite get_ses_request_result.
  change (_ses_requests (add_to_ses_requests h ses c))
    with (put h ses (_ses_requests c)).
  by rewrite alookup_put_eq by lia.
Qed.

(** X4. After [add_to_blocks_validated], [in_blocks_validated] answers true
    for the same hash, whatever the height. *)
Theorem in_blocks_validated_after_add (reward_chain_hash : bytes32) (h : Z) c :
  reachable c →
  (in_blocks_validated reward_chain_hash
     (add_to_blocks_validated reward_chain_hash h c)).1 = true.
Proof.
  intros Hinv%reachable_invariant.
  apply invariant_capacities in Hinv as (_&_&_&_&_&Hcap&_).
  rewrite in_blocks_validated_result.
  change (_blocks_validated (add_to_blocks_validated reward_chain_hash h c))
    with (put reward_chain_hash h (_blocks_validated c)).
  by rewrite alookup_put_eq by lia.
Qed.

(** X5. None of the eight queries ([get_block], [get_block_request],
    [get_ses_request], [in_states_validated], [get_height_timestamp],
    [in_blocks_validated], [in_block_signatures_validated] and the
    predicate) changes the key-to-value mapping of any of the seven
    caches. *)
Theorem queries_keep_mappings (o : call) c :
  is_query o = true → same_mappings (exec o c) c.
Proof. apply query_same_mappings. Qed.

(** X6. In every state of a cache object the keys of each cache are
    distinct and no cache holds more entries than its capacity: 100 for
    blocks, block requests and sub-epoch requests, 1000 for the others. *)
Theorem caches_bounded c :
  reachable c →
  (NoDup (cache (_blocks c)).*1 ∧ length (cache (_blocks c)) ≤ 100)%nat
  ∧ (NoDup (cache (_block_requests c)).*1
     ∧ length (cache (_block_requests c)) ≤ 100)%nat
  ∧ (NoDup (cache (_ses_requests c)).*1
     ∧ length (cache (_ses_requests c)) ≤ 100)%nat
  ∧ (NoDup (cache (_states_validated c)).*1
     ∧ length (cache (_states_validated c)) ≤ 1000)%nat
  ∧ (NoDup (cache (_timestamps c)).*1
     ∧ length (cache (_timestamps c)) ≤ 1000)%nat
  ∧ (NoDup (cache (_blocks_validated c)).*1
     ∧ length (cache (_blocks_validated c)) ≤ 1000)%nat
  ∧ (NoDup (cache (_block_signatures_validated c)).*1
     ∧ length (cache (_block_signatures_validated c)) ≤ 1000)%nat.
Proof.
  intros Hinv%reachable_invariant.
  pose proof (invariant_capacities c Hinv) as (?&?&?&?&?&?&?).
  destruct Hinv as ([? ?]&[? ?]&[? ?]&[? ?]&[? ?]&[? ?]&[? ?]&_).
  split_and!; try done; lia.
Qed.

(** X7. Truncating at [h2] and then at [h1] gives the state that a single
    truncation at the smaller of the two cutoffs gives. *)
Theorem clear_after_height_twice h1 h2 c :
  reachable c →
  clear_after_height h1 (clear_after_height h2 c)
  = clear_after_height (Z.min h1 h2) c.
Proof.
  intros Hinv%reachable_invariant.
  destruct Hinv as (?&?&?&?&?&?&?&_).
  assert (Hmin : ∀ x, (x <=? h1) && (x <=? h2) = (x <=? Z.min h1 h2)).
  { intros x. destruct (Z.leb_spec x h1), (Z.leb_spec x h2),
      (Z.leb_spec x (Z.min h1 h2)); simpl; try done; lia. }
  rewrite (clear_after_height_fields h1), (clear_after_height_fields h2).
  rewrite (clear_after_height_fields (Z.min h1 h2)). simpl.
  f_equal; rewrite rebuild_rebuild by done; apply rebuild_ext; intros k v; simpl;
    rewrite <- ?Hmin; try done.
  - by destruct (k.1 <=? h1), (k.2 <=? h1), (k.1 <=? h2), (k.2 <=? h2).
  - destruct v as [x|]; [|done]. by rewrite Hmin.
Qed.

(** X8. After truncation at [h] no cached height exceeds [h]: no key of the
    caches keyed by height, no endpoint of a requested range and no stored
    height. *)
Theorem clear_after_height_bounds_heights h c :
  reachable c → ∀ x, x ∈ cached_heights (clear_after_height h c) → x ≤ h.
Proof.
  intros Hinv%reachable_invariant x.
  destruct Hinv as (?&?&?&?&?&?&?&_).
  rewrite elem_cached_heights, clear_after_height_fields. simpl.
  intros [(v & Hx)|[(k & v & Hx & Hk)|[(v & Hx)|[(k & Hx)|[(v & Hx)|[(k & Hx)|(k & Hx)]]]]]];
    apply elem_of_rebuild_keep in Hx as [Hkeep _]; try done; simpl in Hkeep.
  - by apply Z.leb_le.
  - apply andb_true_iff in Hkeep as [?%Z.leb_le ?%Z.leb_le].
    by destruct Hk as [-> | ->].
  - by apply Z.leb_le.
  - by apply Z.leb_le.
  - by apply Z.leb_le.
  - by apply Z.leb_le.
  - by apply Z.leb_le.
Qed.

(** X9. Seen through the queries keyed by height, truncation at [h] leaves
    what is cached at a height up to [h] (the cutoff included) and forgets
    what is cached above it; a requested range is forgotten as soon as one
    endpoint is above the cutoff. *)
Theorem queries_after_clear_after_height h c :
  reachable c →
  (∀ k, (get_block k (clear_after_height h c)).1
        = if k <=? h then (get_block k c).1 else None)
  ∧ (∀ start end_,
       (get_block_request start end_ (clear_after_height h c)).1
       = if (start <=? h) && (end_ <=? h)
         then (get_block_request start end_ c).1 else None)
  ∧ (∀ k, (get_ses_request k (clear_after_height h c)).1
          = if k <=? h then (get_ses_request k c).1 else None)
  ∧ (∀ k, (get_height_timestamp k (clear_after_height h c)).1
          = if k <=? h then (get_height_timestamp k c).1 else None).
Proof.
  intros Hinv%reachable_invariant.
  destruct Hinv as (?&?&?&?&?&?&?&_).
  split_and!; intros k.
  - rewrite !get_block_result, clear_after_height_fields. simpl.
    rewrite alookup_rebuild by done.
    by destruct (alookup k (cache (_blocks c))), (k <=? h).
  - intros end_.
    rewrite !get_block_request_result, clear_after_height_fields. simpl.
    rewrite alookup_rebuild by done. simpl.
    by destruct (alookup (k, end_) (cache (_block_requests c))),
      ((k <=? h) && (end_ <=? h)).
  - rewrite !get_ses_request_result, clear_after_height_fields. simpl.
    rewrite alookup_rebuild by done.
    by destruct (alookup k (cache (_ses_requests c))), (k <=? h).
  - rewrite !get_height_timestamp_result, clear_after_height_fields. simpl.
    rewrite alookup_rebuild by done.
    by destruct (alookup k (cache (_timestamps c))), (k <=? h).
Qed.

(** X10. Once a coin state that has a spent or a created height is added,
    [in_states_validated] answers true for its hash, the predicate answers
    true without a fork height, and with a fork height it answers true
    exactly when neither height exceeds the fork height. *)
Theorem can_use_after_add_to_states_validated (cs : CoinState) c :
  reachable c →
  is_Some (cs_height cs) →
  (in_states_validated (get_hash cs) (add_to_states_validated cs c)).1 = true
  ∧ (can_use_peer_request_cache cs (add_to_states_validated cs c) None).1 = true
  ∧ ∀ f, (can_use_peer_request_cache cs (add_to_states_validated cs c) (Some f)).1
         = negb (exceeds (created_height cs) f)
           && negb (exceeds (spent_height cs) f).
Proof.
  intros Hinv%reachable_invariant [x Hx].
  apply invariant_capacities in Hinv as (_&_&_&Hcap&_).
  assert (Hin : (in_states_validated (get_hash cs)
                   (add_to_states_validated cs c)).1 = true).
  { rewrite in_states_validated_result, states_validated_add.
    by rewrite alookup_put_eq, Hx by lia. }
  split_and!; [done| |intros f];
    rewrite can_use_peer_request_cache_decides, Hin; [done|].
  unfold cs_height in Hx. unfold decision_sequence. simpl.
  destruct (created_height cs), (spent_height cs); try done;
    by destruct (exceeds _ _).
Qed.

(** X11. The predicate answers true only for a coin state for which
    [in_states_validated] answers true; with a fork height, only when the
    coin state has a height and none of its heights exceeds the fork
    height. *)
Theorem can_use_sound (cs : CoinState) c (fork_height : option Z) :
  (can_use_peer_request_cache cs c fork_height).1 = true →
  (in_states_validated (get_hash cs) c).1 = true
  ∧ ∀ f, fork_height = Some f →
         (is_Some (created_height cs) ∨ is_Some (spent_height cs))
         ∧ (∀ x, created_height cs = Some x → x ≤ f)
         ∧ (∀ x, spent_height cs = Some x → x ≤ f).
Proof.
  rewrite can_use_peer_request_cache_decides. unfold decision_sequence.
  destruct (in_states_validated (get_hash cs) c).1; simpl; [|done].
  intros Hdec. split; [done|]. intros f ->.
  destruct (created_height cs) as [x|], (spent_height cs) as [y|];
    simpl in Hdec; try done.
  - destruct (Z.gtb_spec x f); [done|]. destruct (Z.gtb_spec y f); [done|].
    split_and!; [left; by eexists | by intros ? [= <-] | by intros ? [= <-]].
  - destruct (Z.gtb_spec x f); [done|].
    split_and!; [left; by eexists | by intros ? [= <-] | done].
  - destruct (Z.gtb_spec y f); [done|].
    split_and!; [right; by eexists | done | by intros ? [= <-]].
Qed.

(** X12. The predicate is monotone in the fork height: where it answers
    true for a fork height it answers true for every larger one and for an
    absent one. *)
Theorem can_use_monotone (cs : CoinState) c f f' :
  (can_use_peer_request_cache cs c (Some f)).1 = true →
  f ≤ f' →
  (can_use_peer_request_cache cs c (Some f')).1 = true
  ∧ (can_use_peer_request_cache cs c None).1 = true.
Proof.
  rewrite !can_use_peer_request_cache_decides. unfold decision_sequence.
  destruct (in_states_validated (get_hash cs) c).1; simpl; [|done].
  intros Hdec Hle. split; [|done].
  destruct (created_height cs) as [x|], (spent_height cs) as [y|];
    simpl in *; try done;
    repeat match goal with
           | H : context [?a >? ?b] |- _ => destruct (Z.gtb_spec a b); [done|]
           end;
    repeat match goal with
           | |- context [?a >? ?b] => destruct (Z.gtb_spec a b); [lia|]
           end; done.
Qed.

(** X13. A coin state that is added and then truncated at [h] is still
    reported by [in_states_validated] exactly when it has a height (spent,
    else created) and that height is at most [h]. *)
Theorem in_states_validated_after_clear (cs : CoinState) h c :
  reachable c →
  (in_states_validated (get_hash cs)
     (clear_after_height h (add_to_states_validated cs c))).1
  = match cs_height cs with
    | Some x => x <=? h
    | None => false
    end.
Proof.
  intros Hc.
  pose proof (reachable_invariant _ (reachable_exec (AddToStatesValidated cs) c Hc))
    as Hinv1. cbn [exec] in Hinv1.
  apply reachable_invariant, invariant_capacities in Hc as (_&_&_&Hcap&_).
  destruct Hinv1 as (_&_&_&Hwf&_).
  rewrite in_states_validated_result, clear_after_height_fields.
  cbn [_states_validated]. rewrite alookup_rebuild by done.
  rewrite states_validated_add, alookup_put_eq by lia.
  destruct (cs_height cs) as [x|]; [|done]. by destruct (x <=? h).
Qed.

(** X14. A block hash added to the validated blocks with height [hh], and a
    block added to the validated signatures, are still reported after
    truncation at [h] exactly when the height ([hh], respectively the
    height of the block) is at most [h]. *)
Theorem validated_blocks_after_clear (reward_chain_hash : bytes32) (hh : Z)
    (b : HeaderBlock) h c :
  reachable c →
  (in_blocks_validated reward_chain_hash
     (clear_after_height h (add_to_blocks_validated reward_chain_hash hh c))).1
  = (hh <=? h)
  ∧ (in_block_signatures_validated b
       (clear_after_height h (add_to_block_signatures_validated b c))).1
    = (height b <=? h).
Proof.
  intros Hc.
  pose proof (reachable_invariant _
                (reachable_exec (AddToBlocksValidated reward_chain_hash hh) c Hc))
    as (_&_&_&_&_&Hwf1&_).
  pose proof (reachable_invariant _
                (reachable_exec (AddToBlockSignaturesValidated b) c Hc))
    as (_&_&_&_&_&_&Hwf2&_).
  cbn [exec] in Hwf1, Hwf2.
  apply reachable_invariant, invariant_capacities in Hc as (_&_&_&_&_&Hcap1&Hcap2).
  split.
  - rewrite in_blocks_validated_result, clear_after_height_fields.
    cbn [_blocks_validated]. rewrite alookup_rebuild by done.
    change (_blocks_validated (add_to_blocks_validated reward_chain_hash hh c))
      with (put reward_chain_hash hh (_blocks_validated c)).
    rewrite alookup_put_eq by lia. by destruct (hh <=? h).
  - rewrite in_block_signatures_validated_result, clear_after_height_fields.
    cbn [_block_signatures_validated]. rewrite alookup_rebuild by done.
    rewrite block_signatures_validated_add, alookup_put_eq by lia.
    by destruct (height b <=? h).
Qed.

(** X15. Adding a coin state never makes [in_states_validated] answer true
    for a different hash, and while fewer than 1000 coin states are cached
    it leaves the answer for every different hash as it was. *)
Theorem add_to_states_validated_other (cs : CoinState) (x : bytes32) c :
  reachable c →
  x ≠ get_hash cs →
  ((in_states_validated x (add_to_states_validated cs c)).1 = true →
   (in_states_validated x c).1 = true)
  ∧ ((length (cache (_states_validated c)) < 1000)%nat →
     (in_states_validated x (add_to_states_validated cs c)).1
     = (in_states_validated x c).1).
Proof.
  intros Hinv%reachable_invariant Hne.
  pose proof (invariant_capacities c Hinv) as (_&_&_&Hcap&_).
  destruct Hinv as (_&_&_&Hwf&_).
  rewrite !in_states_validated_result, states_validated_add. split.
  - destruct (alookup x (cache (put _ _ _))) as [[y|]|] eqn:Hl; try done.
    apply alookup_put_Some in Hl as [[? _]|[_ ->]]; done.
  - intros Hlen. rewrite alookup_put by (done || right; lia).
    by rewrite decide_False.
Qed.

(** X16. After any sequence of calls on a new cache object,
    [in_states_validated] answers true for a hash only if a coin state with
    that hash and with a height was added by [add_to_states_validated]
    during the sequence. *)
Theorem validated_only_if_added (os : list call) (x : bytes32) :
  (in_states_validated x (run os init)).1 = true →
  ∃ cs, AddToStatesValidated cs ∈ os ∧ get_hash cs = x ∧ is_Some (cs_height cs).
Proof.
  rewrite in_states_validated_result.
  destruct (alookup x (cache (_states_validated (run os init))))
    as [[y|]|] eqn:Hl; try done.
  intros _. apply alookup_Some_elem in Hl.
  apply (provenance_run (λ c, cache (_states_validated c))
           (λ o p, ∃ cs, o = AddToStatesValidated cs
                         ∧ p.1 = get_hash cs ∧ p.2 = cs_height cs)) in Hl.
  - destruct Hl as [Hl|(o & Ho & cs & -> & Hk & Hv)]; [by apply elem_of_nil in Hl|].
    simpl in *. exists cs. split_and!; [done..|]. rewrite <- Hv. by eexists.
  - intros o c [k v]. apply states_validated_exec.
Qed.

(** X17. After any sequence of calls on a new cache object,
    [get_height_timestamp] returns a timestamp for a height only if a
    transaction block of that height carrying that timestamp was added by
    [add_to_blocks] during the sequence. *)
Theorem timestamp_only_from_transaction_block (os : list call) (h t : Z) :
  (get_height_timestamp h (run os init)).1 = Some t →
  ∃ b ftb, AddToBlocks b ∈ os ∧ is_transaction_block b = true
           ∧ foliage_transaction_block b = Some ftb
           ∧ height b = h ∧ timestamp ftb = t.
Proof.
  rewrite get_height_timestamp_result. intros Hl%alookup_Some_elem.
  apply (provenance_run (λ c, cache (_timestamps c))
           (λ o p, ∃ b ftb, o = AddToBlocks b ∧ is_transaction_block b = true
                            ∧ foliage_transaction_block b = Some ftb
                            ∧ p.1 = height b ∧ p.2 = timestamp ftb)) in Hl.
  - destruct Hl as [Hl|(o & Ho & b & ftb & -> & ? & ? & ? & ?)];
      [by apply elem_of_nil in Hl|].
    simpl in *. by exists b, ftb.
  - intros o c [k v]. apply timestamps_exec.
Qed.

(** X18. After any sequence of calls on a new cache object, [get_block]
    returns a block for a height only if that block, with that height, was
    added by [add_to_blocks] during the sequence. *)
Theorem block_only_if_added (os : list call) (h : Z) (b : HeaderBlock) :
  (get_block h (run os init)).1 = Some b →
  AddToBlocks b ∈ os ∧ height b = h.
Proof.
  rewrite get_block_result. intros Hl%alookup_Some_elem.
  apply (provenance_run (λ c, cache (_blocks c))
           (λ o p, o = AddToBlocks p.2 ∧ p.1 = height p.2)) in Hl.
  - destruct Hl as [Hl|(o & Ho & -> & ?)]; [by apply elem_of_nil in Hl|].
    done.
  - intros o c [k v]. apply blocks_exec.
Qed.


End further_properties.

(** * The properties on the sample data *)

Section samples.
Import Sample.
Existing Instance collaborators.

Lemma reachable_populated : reachable populated.
Proof. apply reachable_run. Qed.

Lemma reachable_with_unconfirmed : reachable with_unconfirmed.
Proof. apply (reachable_exec (AddToStatesValidated unconfirmed)). constructor. Qed.

Lemma clear_after_height_idempotent_witness :
  reachable populated
  ∧ clear_after_height 6 (clear_after_height 6 populated)
    = clear_after_height 6 populated
  ∧ same_mappings (clear_after_height 6 (clear_after_height 6 populated))
      (clear_after_height 6 populated).
Proof.
  split; [apply reachable_populated|].
  apply (clear_after_height_idempotent 6 populated), reachable_populated.
Defined.

Lemma add_to_states_validated_stores_witness :
  reachable populated
  ∧ alookup [x0a] (cache (_states_validated (add_to_states_validated spent_at_8 populated)))
    = Some (Some 8).
Proof.
  split; [apply reachable_populated|].
  apply (add_to_states_validated_stores spent_at_8 populated), reachable_populated.
Defined.

Lemma signature_fingerprint_ignores_height_witness :
  reachable populated
  ∧ height tx_block_first ≠ height tx_block_moved
  ∧ _calculate_sig_hash_from_block tx_block_first
    = _calculate_sig_hash_from_block tx_block_moved
  ∧ (in_block_signatures_validated tx_block_moved
       (add_to_block_signatures_validated tx_block_first populated)).1 = true.
Proof.
  split; [apply reachable_populated|]. split; [done|].
  apply (signature_fingerprint_ignores_height tx_block_first tx_block_moved populated);
    [apply reachable_populated | reflexivity | reflexivity | reflexivity].
Defined.

Lemma add_to_blocks_asserts_foliage_witness :
  ((add_to_blocks malformed_block populated).1 = AssertionError
   ∧ _timestamps (add_to_blocks malformed_block populated).2 = _timestamps populated)
  ∧ (add_to_blocks tx_block_second populated).1 = Returned ().
Proof.
  split.
  - apply (add_to_blocks_asserts_foliage malformed_block populated); reflexivity.
  - apply (add_to_blocks_asserts_foliage tx_block_second populated).
    intros _. eexists. reflexivity.
Defined.

Lemma in_states_validated_misses_unconfirmed_witness :
  reachable init
  ∧ alookup (get_hash unconfirmed)
      (cache (_states_validated (add_to_states_validated unconfirmed init)))
    = Some None
  ∧ (in_states_validated (get_hash unconfirmed)
       (add_to_states_validated unconfirmed init)).1 = false.
Proof.
  split; [constructor|].
  apply (in_states_validated_misses_unconfirmed unconfirmed init);
    [constructor | reflexivity | reflexivity].
Defined.

Lemma can_use_rejects_validated_unconfirmed_witness :
  reachable init
  ∧ is_key (get_hash unconfirmed) with_unconfirmed = true
  ∧ decision_sequence (is_key (get_hash unconfirmed) with_unconfirmed)
      None None None = true
  ∧ (can_use_peer_request_cache unconfirmed with_unconfirmed None).1 = false.
Proof.
  split; [constructor|].
  apply (can_use_rejects_validated_unconfirmed unconfirmed init);
    [constructor | reflexivity | reflexivity].
Defined.

Lemma add_to_blocks_first_timestamp_wins_witness :
  reachable init
  ∧ timestamp <$> foliage_transaction_block tx_block_first = Some 1000
  ∧ timestamp <$> foliage_transaction_block tx_block_second = Some 2000
  ∧ (get_height_timestamp 5
       (add_to_blocks tx_block_second (add_to_blocks tx_block_first init).2).2).1
    = Some 1000
  ∧ _timestamps (add_to_blocks plain_block init).2 = _timestamps init.
Proof.
  split; [constructor|]. split; [reflexivity|]. split; [reflexivity|].
  destruct (add_to_blocks_first_timestamp_wins init reachable_init)
    as (Hplain & _ & Hfirst).
  split.
  - exact (Hfirst tx_block_first tx_block_second _ _
             eq_refl eq_refl eq_refl eq_refl eq_refl).
  - exact (Hplain plain_block eq_refl).
Defined.

Lemma clear_after_height_keeps_witness :
  reachable populated
  ∧ alookup (3, 8) (cache (_block_requests (clear_after_height 10 populated)))
    = Some a_task
  ∧ alookup (5, 15) (cache (_block_requests (clear_after_height 10 populated)))
    = None.
Proof.
  split; [apply reachable_populated|].
  destruct (clear_after_height_keeps 10 populated reachable_populated)
    as ((_ & Hrequests & _) & _ & _).
  split.
  - apply Hrequests. split; [reflexivity | simpl; lia].
  - destruct (alookup (5, 15) _) as [v|] eqn:Hl; [|reflexivity].
    apply Hrequests in Hl as [_ [_ Hle]]. simpl in Hle. lia.
Defined.

(** C3 (as stated, refuted). A cache object whose only entry is a coin
    state stored without a height holds no height at all, so every cutoff
    is at or above every cached height; truncation drops the entry all the
    same, and the mappings are not preserved. *)
Lemma clear_after_height_drops_unconfirmed :
  reachable with_unconfirmed
  ∧ (∀ x, x ∈ cached_heights with_unconfirmed → x ≤ 0)
  ∧ ¬ same_mappings (clear_after_height 0 with_unconfirmed) with_unconfirmed.
Proof.
  split; [apply reachable_with_unconfirmed|]. split.
  - intros x Hx. vm_compute in Hx. by apply elem_of_nil in Hx.
  - intros (_ & _ & _ & Hstates & _).
    specialize (Hstates [x01; x02]). vm_compute in Hstates. discriminate.
Qed.

(** The bounded cache at work: with room for two entries, reading key 1
    makes key 2 the least recently used one, which the next [put] evicts. *)
Example lru_evicts_least_recent :
  cache (put 3 30 (get 1 (put 2 20 (put 1 10 (new 2)))).2) = [(1, 10); (3, 30)].
Proof. reflexivity. Qed.

(** The scenarios of the predicate's truth table. *)
Example can_use_truth_table :
  (can_use_peer_request_cache spent_at_8 init None).1 = false
  ∧ (can_use_peer_request_cache spent_at_8 two_states None).1 = true
  ∧ (can_use_peer_request_cache created_at_2 two_states (Some 10)).1 = true
  ∧ (can_use_peer_request_cache created_at_2 two_states (Some 1)).1 = false
  ∧ (can_use_peer_request_cache unconfirmed with_unconfirmed (Some 4)).1 = false
  ∧ (can_use_peer_request_cache spent_at_8 two_states (Some 5)).1 = false.
Proof. repeat split. Qed.

(** Truncation at height 6 of the populated cache object: the block of
    height 5 and its timestamp stay, the coin state spent at height 8 and
    the block validated at height 12 go. *)
Example clear_after_height_populated :
  (get_block 5 (clear_after_height 6 populated)).1 = Some tx_block_first
  ∧ (get_height_timestamp 5 (clear_after_height 6 populated)).1 = Some 1000
  ∧ (in_states_validated (get_hash spent_at_8) populated).1 = true
  ∧ (in_states_validated (get_hash spent_at_8)
       (clear_after_height 6 populated)).1 = false
  ∧ (in_blocks_validated [x40] (clear_after_height 6 populated)).1 = false
  ∧ (in_blocks_validated [x40] (clear_after_height 12 populated)).1 = true.
Proof. repeat split. Qed.

(** The predicate does touch the cache object: the entry it consults
    becomes the most recently used one of the validated states. *)
Lemma can_use_peer_request_cache_refreshes :
  (can_use_peer_request_cache spent_at_8 two_states None).1 = true
  ∧ (can_use_peer_request_cache spent_at_8 two_states None).2 ≠ two_states.
Proof.
  split; [reflexivity|]. intros Heq.
  apply (f_equal (λ c, (cache (_states_validated c)).*1)) in Heq.
  vm_compute in Heq. discriminate.
Qed.

End samples.

Section further_samples.
Import Sample.
Existing Instance collaborators.

Lemma get_block_after_add_to_blocks_witness :
  reachable populated
  ∧ (add_to_blocks malformed_block populated).1 = AssertionError
  ∧ (get_block 6 (add_to_blocks malformed_block populated).2).1
    = Some malformed_block.
Proof.
  split; [apply reachable_populated|]. split; [reflexivity|].
  apply (get_block_after_add_to_blocks malformed_block populated),
    reachable_populated.
Defined.

Lemma get_block_request_after_add_witness :
  reachable populated
  ∧ (get_block_request 20 30 (add_to_block_requests 20 30 a_task populated)).1
    = Some a_task.
Proof.
  split; [apply reachable_populated|].
  apply (get_block_request_after_add 20 30 a_task populated), reachable_populated.
Defined.

Lemma get_ses_request_after_add_witness :
  reachable populated
  ∧ (get_ses_request 384 (add_to_ses_requests 384 a_response populated)).1
    = Some a_response.
Proof.
  split; [apply reachable_populated|].
  apply (get_ses_request_after_add 384 a_response populated), reachable_populated.
Defined.

Lemma in_blocks_validated_after_add_witness :
  reachable populated
  ∧ (in_blocks_validated [x41] (add_to_blocks_validated [x41] 0 populated)).1
    = true.
Proof.
  split; [apply reachable_populated|].
  apply (in_blocks_validated_after_add [x41] 0 populated), reachable_populated.
Defined.

Lemma queries_keep_mappings_witness :
  is_query (GetBlock 5) = true
  ∧ same_mappings (exec (GetBlock 5) populated) populated.
Proof.
  split; [reflexivity|].
  apply (queries_keep_mappings (GetBlock 5) populated). reflexivity.
Defined.

Lemma caches_bounded_witness :
  reachable populated
  ∧ (length (cache (_block_requests populated)) ≤ 100)%nat.
Proof.
  split; [apply reachable_populated|].
  destruct (caches_bounded populated reachable_populated) as (_ & [_ Hlen] & _).
  exact Hlen.
Defined.

Lemma clear_after_height_twice_witness :
  reachable populated
  ∧ clear_after_height 6 (clear_after_height 10 populated)
    = clear_after_height 6 populated.
Proof.
  split; [apply reachable_populated|].
  apply (clear_after_height_twice 6 10 populated), reachable_populated.
Defined.

Lemma clear_after_height_bounds_heights_witness :
  reachable populated
  ∧ ∀ x, x ∈ cached_heights (clear_after_height 6 populated) → x ≤ 6.
Proof.
  split; [apply reachable_populated|].
  apply (clear_after_height_bounds_heights 6 populated), reachable_populated.
Defined.

Lemma queries_after_clear_after_height_witness :
  reachable populated
  ∧ (get_block 5 (clear_after_height 5 populated)).1 = (get_block 5 populated).1
  ∧ (get_block_request 5 15 (clear_after_height 10 populated)).1 = None.
Proof.
  split; [apply reachable_populated|].
  destruct (queries_after_clear_after_height 5 populated reachable_populated)
    as (Hblock & _).
  destruct (queries_after_clear_after_height 10 populated reachable_populated)
    as (_ & Hrequest & _).
  split; [exact (Hblock 5) | exact (Hrequest 5 15)].
Defined.

Lemma can_use_after_add_to_states_validated_witness :
  reachable init
  ∧ is_Some (cs_height spent_at_8)
  ∧ (in_states_validated (get_hash spent_at_8)
       (add_to_states_validated spent_at_8 init)).1 = true
  ∧ (can_use_peer_request_cache spent_at_8
       (add_to_states_validated spent_at_8 init) (Some 5)).1 = false.
Proof.
  split; [constructor|]. split; [by eexists|].
  destruct (can_use_after_add_to_states_validated spent_at_8 init)
    as (Hin & _ & Hfork); [constructor | by eexists |].
  split; [exact Hin | exact (Hfork 5)].
Defined.

Lemma can_use_sound_witness :
  (can_use_peer_request_cache spent_at_8 two_states (Some 10)).1 = true
  ∧ (in_states_validated (get_hash spent_at_8) two_states).1 = true
  ∧ (∀ x, spent_height spent_at_8 = Some x → x ≤ 10).
Proof.
  split; [reflexivity|].
  destruct (can_use_sound spent_at_8 two_states (Some 10) eq_refl) as (Hin & Hfork).
  split; [exact Hin|]. destruct (Hfork 10 eq_refl) as (_ & _ & Hspent). exact Hspent.
Defined.

Lemma can_use_monotone_witness :
  (can_use_peer_request_cache spent_at_8 two_states (Some 8)).1 = true
  ∧ 8 ≤ 30
  ∧ (can_use_peer_request_cache spent_at_8 two_states (Some 30)).1 = true
  ∧ (can_use_peer_request_cache spent_at_8 two_states None).1 = true.
Proof.
  split; [reflexivity|]. split; [lia|].
  apply (can_use_monotone spent_at_8 two_states 8 30); [reflexivity | lia].
Defined.

Lemma in_states_validated_after_clear_witness :
  reachable init
  ∧ (in_states_validated (get_hash spent_at_8)
       (clear_after_height 7 (add_to_states_validated spent_at_8 init))).1 = false
  ∧ (in_states_validated (get_hash spent_at_8)
       (clear_after_height 8 (add_to_states_validated spent_at_8 init))).1 = true.
Proof.
  split; [constructor|]. split.
  - apply (in_states_validated_after_clear spent_at_8 7 init). constructor.
  - apply (in_states_validated_after_clear spent_at_8 8 init). constructor.
Defined.

Lemma validated_blocks_after_clear_witness :
  reachable populated
  ∧ (in_blocks_validated [x41]
       (clear_after_height 6 (add_to_blocks_validated [x41] 9 populated))).1 = false
  ∧ (in_block_signatures_validated tx_block_first
       (clear_after_height 6
          (add_to_block_signatures_validated tx_block_first populated))).1 = true.
Proof.
  split; [apply reachable_populated|].
  apply (validated_blocks_after_clear [x41] 9 tx_block_first 6 populated),
    reachable_populated.
Defined.

Lemma add_to_states_validated_other_witness :
  reachable with_unconfirmed
  ∧ get_hash spent_at_8 ≠ get_hash created_at_2
  ∧ (in_states_validated (get_hash spent_at_8)
       (add_to_states_validated created_at_2 with_unconfirmed)).1
    = (in_states_validated (get_hash spent_at_8) with_unconfirmed).1.
Proof.
  split; [apply reachable_with_unconfirmed|]. split; [done|].
  destruct (add_to_states_validated_other created_at_2 (get_hash spent_at_8)
              with_unconfirmed reachable_with_unconfirmed) as (_ & Hroom); [done|].
  apply Hroom. vm_compute. lia.
Defined.

Lemma validated_only_if_added_witness :
  (in_states_validated [x0a] (run history init)).1 = true
  ∧ ∃ cs, AddToStatesValidated cs ∈ history ∧ get_hash cs = [x0a]
          ∧ is_Some (cs_height cs).
Proof.
  split; [reflexivity|].
  apply (validated_only_if_added history [x0a]). reflexivity.
Defined.

Lemma timestamp_only_from_transaction_block_witness :
  (get_height_timestamp 5 (run history init)).1 = Some 1000
  ∧ ∃ b ftb, AddToBlocks b ∈ history ∧ is_transaction_block b = true
             ∧ foliage_transaction_block b = Some ftb
             ∧ height b = 5 ∧ timestamp ftb = 1000.
Proof.
  split; [reflexivity|].
  apply (timestamp_only_from_transaction_block history 5 1000). reflexivity.
Defined.

Lemma block_only_if_added_witness :
  (get_block 5 (run history init)).1 = Some tx_block_first
  ∧ AddToBlocks tx_block_first ∈ history ∧ height tx_block_first = 5.
Proof.
  split; [reflexivity|].
  apply (block_only_if_added history 5 tx_block_first). reflexivity.
Defined.


End further_samples.
